(** * Rider-name normalisation of the TdF pool scrapers

    Shallow embedding of the two name normalisers of the repository:

    - [reformat_rider_name] of [scripts/import-stages.py]
      (class [FixedSeleniumScraper]), the "layout A" path of the
      specification;
    - [_format_name] of [scripts/scrape_stage_results.py]
      (class [TdFScraper]), the "layout B" path.

    A Python [str] is a sequence of Unicode code points; it is modelled as
    a list of code points, a code point being a number of type [N].
    The whitespace table of [str.split] / [str.strip] is small and is given
    in full.  The case tables and the decomposition table behind
    [str.lower], [str.title], [str.isupper] and [unicodedata.normalize]
    are not part of the repository: the normalisers take them as a
    parameter (record [Unicode]); module [Latin1] gives them for the
    Basic Latin and Latin-1 Supplement blocks, which is what the concrete
    evaluations below use. *)

From Stdlib Require Import String Ascii NArith ZArith List Bool Lia.
Import ListNotations.

(** ** Strings as lists of code points *)

Definition codepoint := N.
Definition str := list codepoint.

(** An ASCII literal of the development, as a Python string. *)
Definition lit (s : string) : str :=
  List.map N_of_ascii (list_ascii_of_string s).

Arguments lit s%_string.

Definition str_eqb (a b : str) : bool :=
  if list_eq_dec N.eq_dec a b then true else false.

(** [x in s] for a set (or list) of strings. *)
Definition mem (x : str) (s : list str) : bool :=
  existsb (str_eqb x) s.

(** What [bytes.encode('ascii', 'ignore')] keeps. *)
Definition is_ascii_cp (c : codepoint) : bool := (c <? 128)%N.
Definition is_ascii (s : str) : bool := forallb is_ascii_cp s.

(** ** Python outcomes: a value, or an exception *)

Inductive exn : Type := IndexError.

Inductive outcome (A : Type) : Type :=
| Returns (a : A)
| Raises (e : exn).

Arguments Returns {A} a.
Arguments Raises {A} e.

Definition bind {A B : Type} (m : outcome A) (k : A -> outcome B) : outcome B :=
  match m with
  | Returns a => k a
  | Raises e => Raises e
  end.

Notation "x <- m ;; k" := (bind m (fun x => k))
  (at level 61, m at next level, right associativity).

(** [l[i]] with Python's negative indices; out of range raises. *)
Definition py_index {A : Type} (l : list A) (i : Z) : outcome A :=
  let n := Z.of_nat (length l) in
  let j := if (i <? 0)%Z then (i + n)%Z else i in
  if ((j <? 0) || (n <=? j))%Z then Raises IndexError
  else match nth_error l (Z.to_nat j) with
       | Some a => Returns a
       | None => Raises IndexError
       end.

(** Slice bounds are clamped, never raise. *)
Definition clamp {A : Type} (l : list A) (i : Z) : nat :=
  let n := Z.of_nat (length l) in
  let j := if (i <? 0)%Z then (i + n)%Z else i in
  Z.to_nat (Z.min (Z.max j 0) n).

(** [l[:i]] *)
Definition slice_to {A : Type} (l : list A) (i : Z) : list A :=
  firstn (clamp l i) l.

(** [l[i:]] *)
Definition slice_from {A : Type} (l : list A) (i : Z) : list A :=
  skipn (clamp l i) l.

(** [enumerate(l)] *)
Fixpoint enumerate_from {A : Type} (i : Z) (l : list A) : list (Z * A) :=
  match l with
  | [] => []
  | a :: r => (i, a) :: enumerate_from (i + 1) r
  end.

Definition enumerate {A : Type} (l : list A) : list (Z * A) :=
  enumerate_from 0 l.

(** ** Whitespace: [str.strip()], [str.split()], [' '.join] *)

(** The code points for which [str.isspace] holds (CPython's
    [_PyUnicode_IsWhitespace]). *)
Definition isspace (c : codepoint) : bool :=
  (((9 <=? c) && (c <=? 13)) || ((28 <=? c) && (c <=? 32))
   || (c =? 133) || (c =? 160) || (c =? 5760)
   || ((8192 <=? c) && (c <=? 8202))
   || (c =? 8232) || (c =? 8233) || (c =? 8239) || (c =? 8287)
   || (c =? 12288))%N.

Fixpoint lstrip (s : str) : str :=
  match s with
  | [] => []
  | c :: r => if isspace c then lstrip r else s
  end.

Definition rstrip (s : str) : str := rev (lstrip (rev s)).

(** [s.strip()] *)
Definition strip (s : str) : str := rstrip (lstrip s).

(** [s.split()]: the maximal runs of non-whitespace code points. *)
Fixpoint split (s : str) : list str :=
  match s with
  | [] => []
  | c :: r =>
      if isspace c then split r
      else match r with
           | [] => [[c]]
           | d :: _ =>
               if isspace d then [c] :: split r
               else match split r with
                    | t :: ts => (c :: t) :: ts
                    | [] => [[c]]
                    end
           end
  end.

Definition space : codepoint := 32%N.

(** [' '.join(ts)] *)
Fixpoint join (ts : list str) : str :=
  match ts with
  | [] => []
  | [t] => t
  | t :: r => t ++ space :: join r
  end.

(** A token: a non-empty string without whitespace. *)
Definition is_token (t : str) : bool :=
  match t with
  | [] => false
  | _ => forallb (fun c => negb (isspace c)) t
  end.

Abbreviation tokens ts := (Forall (fun t => is_token t = true) ts).

(** A blank suffix: empty, or starting with whitespace. *)
Definition blank_start (r : str) : Prop :=
  match r with
  | [] => True
  | d :: _ => isspace d = true
  end.

(** A string is single-spaced when it is its own tokens joined by one
    space each: no leading or trailing whitespace, and exactly one U+0020
    between two tokens. *)
Definition single_spaced (s : str) : Prop := s = join (split s).

(** ** The Unicode tables the normalisers depend on *)

Record Unicode : Type := {
  u_lower : str -> str;      (* str.lower() *)
  u_title : str -> str;      (* str.title() *)
  u_isupper : str -> bool;   (* str.isupper() *)
  u_nfkd : str -> str        (* unicodedata.normalize('NFKD', s) *)
}.

(** The tables for U+0000..U+00FF.  Code points above U+00FF are taken as
    uncased and without decomposition, so the module agrees with Python
    on strings of the two blocks only. *)
Module Latin1.

Definition is_upper_cp (c : codepoint) : bool :=
  (((65 <=? c) && (c <=? 90))
   || ((192 <=? c) && (c <=? 222) && negb (c =? 215)))%N.

Definition is_lower_cp (c : codepoint) : bool :=
  (((97 <=? c) && (c <=? 122))
   || (c =? 170) || (c =? 181) || (c =? 186)
   || ((223 <=? c) && (c <=? 255) && negb (c =? 247)))%N.

Definition is_cased_cp (c : codepoint) : bool :=
  is_upper_cp c || is_lower_cp c.

Definition lower_cp (c : codepoint) : codepoint :=
  if is_upper_cp c then (c + 32)%N else c.

(** Title-case mapping; U+00DF maps to two code points. *)
Definition title_cp (c : codepoint) : str :=
  if ((97 <=? c) && (c <=? 122))%N then [(c - 32)%N]
  else if ((224 <=? c) && (c <=? 254) && negb (c =? 247))%N then [(c - 32)%N]
  else if (c =? 255)%N then [376%N]
  else if (c =? 181)%N then [924%N]
  else if (c =? 223)%N then [83%N; 115%N]
  else [c].

Definition lower (s : str) : str := List.map lower_cp s.

(** [str.title()]: a cased code point that follows an uncased one (or
    starts the string) is title-cased, every other one lower-cased. *)
Fixpoint title_from (previous_is_cased : bool) (s : str) : str :=
  match s with
  | [] => []
  | c :: r =>
      (if previous_is_cased then [lower_cp c] else title_cp c)
        ++ title_from (is_cased_cp c) r
  end.

Definition title (s : str) : str := title_from false s.

(** [str.isupper()]: no lower-case code point and at least one
    upper-case one. *)
Definition isupper (s : str) : bool :=
  forallb (fun c => negb (is_lower_cp c)) s && existsb is_upper_cp s.

Definition grave : codepoint := 768%N.
Definition acute : codepoint := 769%N.
Definition circumflex : codepoint := 770%N.
Definition tilde : codepoint := 771%N.
Definition macron : codepoint := 772%N.
Definition diaeresis : codepoint := 776%N.
Definition ring : codepoint := 778%N.
Definition cedilla : codepoint := 807%N.

(** The mark carried by the accented letters of U+00C0..U+00FF, by
    position in the block (the block repeats at U+00E0). *)
Definition mark_of (k : N) : option (N * codepoint) :=
  (* k is the offset from U+00C0 (or U+00E0); the result is the offset
     of the base letter from 'A' (or 'a') and the combining mark *)
  match k with
  | 0 => Some (0, grave) | 1 => Some (0, acute) | 2 => Some (0, circumflex)
  | 3 => Some (0, tilde) | 4 => Some (0, diaeresis) | 5 => Some (0, ring)
  | 7 => Some (2, cedilla)
  | 8 => Some (4, grave) | 9 => Some (4, acute) | 10 => Some (4, circumflex)
  | 11 => Some (4, diaeresis)
  | 12 => Some (8, grave) | 13 => Some (8, acute) | 14 => Some (8, circumflex)
  | 15 => Some (8, diaeresis)
  | 17 => Some (13, tilde)
  | 18 => Some (14, grave) | 19 => Some (14, acute)
  | 20 => Some (14, circumflex) | 21 => Some (14, tilde)
  | 22 => Some (14, diaeresis)
  | 25 => Some (20, grave) | 26 => Some (20, acute)
  | 27 => Some (20, circumflex) | 28 => Some (20, diaeresis)
  | 29 => Some (24, acute)
  | _ => None
  end%N.

(** Compatibility decomposition of one code point. *)
Definition nfkd_cp (c : codepoint) : str :=
  (if (192 <=? c) && (c <=? 222) then
     match mark_of (c - 192) with
     | Some (b, m) => [65 + b; m]
     | None => [c]
     end
   else if (224 <=? c) && (c <=? 253) then
     match mark_of (c - 224) with
     | Some (b, m) => [97 + b; m]
     | None => [c]
     end
   else if c =? 255 then [121; diaeresis]
   else if c =? 160 then [32]
   else if c =? 168 then [32; diaeresis]
   else if c =? 170 then [97]
   else if c =? 175 then [32; macron]
   else if c =? 178 then [50]
   else if c =? 179 then [51]
   else if c =? 180 then [32; acute]
   else if c =? 181 then [956]
   else if c =? 184 then [32; cedilla]
   else if c =? 185 then [49]
   else if c =? 186 then [111]
   else if c =? 188 then [49; 8260; 52]
   else if c =? 189 then [49; 8260; 50]
   else if c =? 190 then [51; 8260; 52]
   else [c])%N.

Definition nfkd (s : str) : str := flat_map nfkd_cp s.

Definition unicode : Unicode :=
  {| u_lower := lower; u_title := title;
     u_isupper := isupper; u_nfkd := nfkd |}.

(** The title-case mapping as one code point, where it is one. *)
Definition title1 (c : codepoint) : codepoint := hd c (title_cp c).

(** The facts about an ASCII code point that the properties use, as one
    check to run over the table. *)
Definition ascii_ok (c : codepoint) : bool :=
  is_ascii_cp (lower_cp c) && is_ascii_cp (title1 c)
  && str_eqb (title_cp c) [title1 c]
  && str_eqb (nfkd_cp c) [c]
  && (lower_cp (lower_cp c) =? lower_cp c)%N
  && (lower_cp (title1 c) =? lower_cp c)%N
  && str_eqb (title_cp (title1 c)) [title1 c]
  && eqb (is_cased_cp (title1 c)) (is_cased_cp c)
  && eqb (is_cased_cp (lower_cp c)) (is_cased_cp c).

(** Case mappings never produce whitespace out of a code point that is
    none, whatever the code point. *)
Definition nonspace_ok (c : codepoint) : bool :=
  isspace c
  || (negb (isspace (lower_cp c))
      && forallb (fun d => negb (isspace d)) (title_cp c)).

End Latin1.

(** ** Tables that agree with Python on ASCII *)

(** What the properties below ask of the tables: on ASCII strings they
    are the Basic Latin ones ([Latin1] restricted to ASCII), and title
    casing maps a token to a token. *)
Record Conforms (U : Unicode) : Prop := {
  conf_lower : forall s, is_ascii s = true -> u_lower U s = Latin1.lower s;
  conf_title : forall s, is_ascii s = true -> u_title U s = Latin1.title s;
  conf_nfkd : forall s, is_ascii s = true -> u_nfkd U s = s;
  conf_title_token :
    forall s, is_token s = true -> is_token (u_title U s) = true
}.

Arguments conf_lower {U} _ s _.
Arguments conf_title {U} _ s _.
Arguments conf_nfkd {U} _ s _.
Arguments conf_title_token {U} _ s _.

(** ** The two particle tables *)

Open Scope string_scope.

(** [surname_prefixes] of [reformat_rider_name] (import-stages.py). *)
Definition surname_prefixes : list str :=
  List.map lit
    ["van"; "der"; "de"; "den"; "le"; "dos"; "da"; "di"; "del"; "la"].

(** [particles] of [_format_name] (scrape_stage_results.py). *)
Definition particles : list str :=
  List.map lit
    ["van"; "de"; "der"; "den"; "le"; "la"; "del"; "da"; "di"; "dos";
     "von"; "zu"].

(** The ParticleSet of the specification. *)
Definition ParticleSet : list str :=
  List.map lit
    ["van"; "der"; "de"; "den"; "le"; "dos"; "da"; "di"; "del"; "la";
     "von"; "zu"].

Close Scope string_scope.

(** [not name], for an optional string. *)
Definition falsy (name : option str) : bool :=
  match name with
  | None => true
  | Some [] => true
  | Some _ => false
  end.

Definition text (name : option str) : str :=
  match name with
  | None => []
  | Some s => s
  end.

(** [s.encode('ascii', 'ignore')]: the code points below 128, as bytes. *)
Definition encode_ascii_ignore (s : str) : list N := filter is_ascii_cp s.

(** [b.decode('utf-8')], for bytes below 128. *)
Definition decode_utf8 (b : list N) : str := b.

(** "Piétri Jean" and "Jean Piétri", the accented letter being U+00E9. *)
Definition pietri_jean : str := lit "Pi" ++ [233%N] ++ lit "tri Jean".
Definition jean_pietri : str := lit "Jean Pi" ++ [233%N] ++ lit "tri".

Section Normalisers.

Variable U : Unicode.

(** *** Layout A: [FixedSeleniumScraper.reformat_rider_name] *)

Definition proper_case (part : str) : str :=
  let lower := u_lower U part in
  if mem lower surname_prefixes then lower else u_title U part.

(** [unicodedata.normalize('NFKD', name).encode('ascii', 'ignore')
    .decode('utf-8')] *)
Definition normalized (name : str) : str :=
  decode_utf8 (encode_ascii_ignore (u_nfkd U name)).

Definition reformat_rider_name (name : option str) : outcome str :=
  if falsy name then Returns []
  else
    let name := text name in
    let parts := split (strip (normalized name)) in
    if (length parts <? 2)%nat then Returns (u_title U name)
    else
      last <- py_index parts (-1) ;;
      let first_name := proper_case last in
      let surname := join (List.map proper_case (slice_to parts (-1))) in
      Returns (first_name ++ space :: surname).

(** *** Layout B: [TdFScraper._format_name] *)

Definition is_particle (part : str) : bool :=
  mem (u_lower U part) particles.

(** The scan [for i, part in enumerate(parts)]. *)
Definition last_particle_idx (parts : list str) : Z :=
  fold_left
    (fun idx ip => if is_particle (snd ip) then fst ip else idx)
    (enumerate parts) (-1)%Z.

(** [(surname_parts, first_name_parts)] *)
Definition name_spans (parts : list str) : outcome (list str * list str) :=
  let last := last_particle_idx parts in
  if (0 <=? last)%Z then
    let surname_end_idx := Z.min (last + 2) (Z.of_nat (length parts)) in
    Returns (slice_to parts surname_end_idx, slice_from parts surname_end_idx)
  else
    p0 <- py_index parts 0 ;;
    Returns ([p0], slice_from parts 1).

(** [p.title() if p.isupper() else p] *)
Definition fix_caps (p : str) : str :=
  if u_isupper U p then u_title U p else p.

Definition _format_name (name : option str) : outcome (option str) :=
  if falsy name then Returns None
  else
    let name := strip (text name) in
    let parts := split name in
    if (length parts <? 2)%nat then Returns (Some name)
    else
      spans <- name_spans parts ;;
      let surname_parts := fst spans in
      let first_name_parts := snd spans in
      match first_name_parts with
      | [] => Returns (Some name)
      | _ =>
          let surname_parts := List.map fix_caps surname_parts in
          let first_name_parts := List.map fix_caps first_name_parts in
          let first_name := join first_name_parts in
          let surname := join surname_parts in
          Returns (Some (first_name ++ space :: surname))
      end.

(** Layout B output fed to the layout A path. *)
Definition B_then_A (name : option str) : outcome str :=
  canonical <- _format_name name ;;
  reformat_rider_name canonical.

End Normalisers.

(** * The other functions of the two scrapers *)

From Stdlib Require DecimalString DecimalZ DecimalPos.

(** ** Rows of the scraping library, as the scraper reads them *)

(** What a dict holds at a key the code reads: no such key, [None], or
    a value. *)
Inductive entry (A : Type) : Type :=
| Missing
| Null
| Val (a : A).

Arguments Missing {A}.
Arguments Null {A}.
Arguments Val {A} a.

(** [d.get(key)] *)
Definition get {A : Type} (e : entry A) : option A :=
  match e with
  | Val a => Some a
  | _ => None
  end.

(** [d.get(key, default)] *)
Definition get_or {A : Type} (e : entry A) (default : A) : option A :=
  match e with
  | Missing => Some default
  | Null => None
  | Val a => Some a
  end.

(** A row of [stage.results(...)] or of a classification, with the keys
    the scraper reads. *)
Record result_row : Type := {
  row_rider_name : entry str;
  row_rank : entry Z;
  row_time : entry str;
  row_gap : entry str;
  row_status : entry str
}.

(** [v == s] for an optional string [v]. *)
Definition opt_eqb (v : option str) (s : str) : bool :=
  match v with
  | Some x => str_eqb x s
  | None => false
  end.

(** [a or b] on optional strings: [None] and [""] are false. *)
Definition py_or (a b : option str) : option str :=
  if falsy a then b else a.

(** [str(z)] for an integer. *)
Definition py_str (z : Z) : str := lit (DecimalString.NilZero.string_of_int (Z.to_int z)).

(** *** [TdFScraper._calculate_difficulty] *)

Definition _calculate_difficulty (profile_score : Z) : str :=
  if (150 <=? profile_score)%Z then lit "Very Hard"
  else if (100 <=? profile_score)%Z then lit "Hard"
  else if (50 <=? profile_score)%Z then lit "Medium"
  else lit "Easy".

(** The four labels, from the easiest. *)
Definition difficulty_rank (label : str) : nat :=
  if str_eqb label (lit "Easy") then 0
  else if str_eqb label (lit "Medium") then 1
  else if str_eqb label (lit "Hard") then 2
  else 3.

(** *** [TdFScraper._get_dnf_dns] *)

(** The dict [{'dnf': dnf_riders, 'dns': dns_riders}]. *)
Record dnf_dns : Type := {
  dnf : list str;
  dns : list str
}.

(** One turn of [for result in all_results]. *)
Definition dnf_dns_step (acc : dnf_dns) (result : result_row) : dnf_dns :=
  let rider_name := get_or (row_rider_name result) [] in
  let status := get_or (row_status result) [] in
  if falsy rider_name then acc
  else if opt_eqb status (lit "DNS") then
    {| dnf := dnf acc; dns := dns acc ++ [text rider_name] |}
  else if opt_eqb status (lit "DNF") || opt_eqb status (lit "OTL")
          || opt_eqb status (lit "DSQ") then
    {| dnf := dnf acc ++ [text rider_name]; dns := dns acc |}
  else acc.

(** The argument is what [stage_data] holds at ['results'].  Iterating
    over [None] raises inside the [try], and the two lists, still empty,
    are returned. *)
Definition _get_dnf_dns (results : entry (list result_row)) : dnf_dns :=
  let start := {| dnf := []; dns := [] |} in
  match get_or results [] with
  | None => start
  | Some all_results => fold_left dnf_dns_step all_results start
  end.

(** The name a result row is listed under, and the rows that the loop
    lists as not started and as dropped out. *)
Definition row_name (result : result_row) : str :=
  text (get_or (row_rider_name result) []).

Definition has_status (result : result_row) (s : str) : bool :=
  opt_eqb (get_or (row_status result) []) s.

Definition did_not_start (result : result_row) : bool :=
  negb (falsy (get_or (row_rider_name result) []))
  && has_status result (lit "DNS").

Definition dropped_out (result : result_row) : bool :=
  negb (falsy (get_or (row_rider_name result) []))
  && (has_status result (lit "DNF") || has_status result (lit "OTL")
      || has_status result (lit "DSQ")).

(** *** [TdFScraper._get_jersey_leader] *)

Definition _get_jersey_leader (classification : option (list result_row))
  : outcome (option str) :=
  match classification with
  | None => Returns None
  | Some [] => Returns None
  | Some rows =>
      leader <- py_index rows 0 ;;
      Returns (get (row_rider_name leader))
  end.

(** *** [TdFScraper._get_combativity], after the page is fetched *)

(** An entry of [combative.combative_riders()]. *)
Record combative_entry : Type := {
  ce_stage_name : entry str;
  ce_rider_name : entry str
}.

(** [f"Stage {stage_number}"] *)
Definition stage_label (stage_number : Z) : str :=
  lit "Stage " ++ py_str stage_number.

(** The loop [for entry in combative_data]. *)
Fixpoint combative_rider (stage_name : str)
    (combative_data : list combative_entry) : option str :=
  match combative_data with
  | [] => None
  | e :: rest =>
      if opt_eqb (get (ce_stage_name e)) stage_name
      then get (ce_rider_name e)
      else combative_rider stage_name rest
  end.

Definition _get_combativity (stage_number : Z)
    (combative_data : list combative_entry) : option str :=
  combative_rider (stage_label stage_number) combative_data.

(** *** [TdFScraper._format_top_20] and the name fields of
    [get_complete_stage_data] *)

(** An entry of ["top_20_finishers"]. *)
Record finisher : Type := {
  f_rider_name : option str;
  f_position : option Z;
  f_time_gap : option str
}.

Section StageData.

Variable U : Unicode.

(** The loop [for i, result in enumerate(results[:20], 1)]. *)
Fixpoint format_rows (rows : list (Z * result_row)) : outcome (list finisher) :=
  match rows with
  | [] => Returns []
  | (i, result) :: rest =>
      rider_name <- _format_name U (get_or (row_rider_name result) []) ;;
      let formatted :=
        {| f_rider_name := rider_name;
           f_position := get_or (row_rank result) i;
           f_time_gap :=
             py_or (py_or (get (row_time result)) (get (row_gap result)))
                   (Some (lit "0:00")) |} in
      others <- format_rows rest ;;
      Returns (formatted :: others)
  end.

Definition _format_top_20 (results : list result_row)
  : outcome (list finisher) :=
  format_rows (enumerate_from 1 (slice_to results 20)).

(** A jersey of [get_complete_stage_data]:
    [self._format_name(self._get_jersey_leader(stage_data.get(key, [])))] *)
Definition jersey (classification : entry (list result_row))
  : outcome (option str) :=
  leader <- _get_jersey_leader (get_or classification []) ;;
  _format_name U leader.

(** [[self._format_name(name) for name in names]] *)
Fixpoint format_names (names : list str) : outcome (list (option str)) :=
  match names with
  | [] => Returns []
  | name :: rest =>
      formatted <- _format_name U (Some name) ;;
      others <- format_names rest ;;
      Returns (formatted :: others)
  end.

End StageData.

(** ** [FixedSeleniumScraper.parse_time_gap] *)

(** The decimal digits, which [\d] matches and [int()] reads: Unicode's
    category Nd with the value of each digit.  They are not part of the
    repository and are a parameter; no decimal digit is whitespace, '+',
    ':' or the double prime, so the greedy runs of the two patterns
    never give a code point back. *)
Record Digits : Type := {
  isdecimal : codepoint -> bool;
  digit_value : codepoint -> N
}.

(** The digits of U+0000..U+00FF: '0' to '9'. *)
Definition ascii_digits : Digits :=
  {| isdecimal := fun c => ((48 <=? c) && (c <=? 57))%N;
     digit_value := fun c => (c - 48)%N |}.

Definition plus_sign : codepoint := 43%N.
Definition colon : codepoint := 58%N.
Definition double_prime : codepoint := 8243%N.

(** The longest prefix of code points of one class, and what follows it:
    a greedy [\s*] or [\d*]. *)
Fixpoint span (p : codepoint -> bool) (s : str) : str * str :=
  match s with
  | [] => ([], [])
  | c :: r =>
      if p c then let (a, b) := span p r in (c :: a, b) else ([], s)
  end.

(** [re.search]: the match at the first position that has one. *)
Fixpoint search {A : Type} (m : str -> option A) (text : str) : option A :=
  match m text with
  | Some g => Some g
  | None =>
      match text with
      | [] => None
      | _ :: r => search m r
      end
  end.

Section TimeGap.

Variable D : Digits.

(** Group 1 of [\+\s*(\d+:\d+)] matched at the start of [s]. *)
Definition match_minutes (s : str) : option str :=
  match s with
  | [] => None
  | c :: r =>
      if (c =? plus_sign)%N then
        let (m, r2) := span (isdecimal D) (snd (span isspace r)) in
        match m, r2 with
        | _ :: _, c2 :: r3 =>
            if (c2 =? colon)%N then
              match fst (span (isdecimal D) r3) with
              | [] => None
              | sec => Some (m ++ colon :: sec)
              end
            else None
        | _, _ => None
        end
      else None
  end.

(** Group 1 of [\+\s*(\d+)″] matched at the start of [s]. *)
Definition match_seconds (s : str) : option str :=
  match s with
  | [] => None
  | c :: r =>
      if (c =? plus_sign)%N then
        let (m, r2) := span (isdecimal D) (snd (span isspace r)) in
        match m, r2 with
        | _ :: _, c2 :: _ =>
            if (c2 =? double_prime)%N then Some m else None
        | _, _ => None
        end
      else None
  end.

(** [int(s)] for a string of decimal digits. *)
Definition py_int (s : str) : N :=
  fold_left (fun n c => (10 * n + digit_value D c)%N) s 0%N.

(** [f"{seconds:02d}"] for a natural number. *)
Definition format_02d (seconds : N) : str :=
  let digits := py_str (Z.of_N seconds) in
  if (length digits <? 2)%nat then lit "0" ++ digits else digits.

Definition parse_time_gap (text : str) (is_winner : bool) : str :=
  if is_winner then lit "0:00"
  else
    match search match_minutes text with
    | Some group1 => lit "+" ++ group1
    | None =>
        match search match_seconds text with
        | Some group1 =>
            let seconds := py_int group1 in
            lit "+0:" ++ format_02d seconds
        | None => lit "+0:00"
        end
    end.

End TimeGap.

(** What the properties ask of the digits: '0' to '9' are digits with
    their values, and no digit is whitespace, '+', ':' or the double
    prime. *)
Record DigitsOK (D : Digits) : Prop := {
  ok_ascii :
    forall c, (48 <= c <= 57)%N ->
              isdecimal D c = true /\ digit_value D c = (c - 48)%N;
  ok_apart :
    forall c, isdecimal D c = true ->
              isspace c = false /\ c <> plus_sign /\ c <> colon
              /\ c <> double_prime
}.

(** ** The row test of [_extract_combativity] and [_extract_dnf_dns] *)

(** [s.startswith(prefix)] *)
Fixpoint startswith (s prefix : str) : bool :=
  match prefix, s with
  | [], _ => true
  | _ :: _, [] => false
  | p :: ps, c :: cs => (c =? p)%N && startswith cs ps
  end.

(** [sub in s] *)
Fixpoint contains (s sub : str) : bool :=
  startswith s sub
  || match s with
     | [] => false
     | _ :: r => contains r sub
     end.

(** [f"Stage {stage} " in row_text or f"Stage {stage}\t" in row_text
    or row_text.startswith(f"Stage {stage}")] *)
Definition is_stage_row (stage : Z) (row_text : str) : bool :=
  contains row_text (stage_label stage ++ [32%N])
  || contains row_text (stage_label stage ++ [9%N])
  || startswith row_text (stage_label stage).

(** A string without leading or trailing whitespace. *)
Definition trimmed (s : str) : Prop := lstrip s = s /\ lstrip (rev s) = rev s.

(** The digits of [str(n)]. *)
Definition is_ascii_digit (c : codepoint) : bool :=
  ((48 <=? c) && (c <=? 57))%N.


(** * Properties *)

(** ** Tokens, [split] and [join] *)

Lemma split_cons c r :
  split (c :: r) =
  if isspace c then split r
  else match r with
       | [] => [[c]]
       | d :: _ =>
           if isspace d then [c] :: split r
           else match split r with
                | t :: ts => (c :: t) :: ts
                | [] => [[c]]
                end
       end.
Proof. destruct r; reflexivity. Qed.

Lemma is_token_cons c t :
  is_token (c :: t) = negb (isspace c) && forallb (fun d => negb (isspace d)) t.
Proof. reflexivity. Qed.

Lemma is_token_forallb t :
  is_token t = true -> forallb (fun d => negb (isspace d)) t = true.
Proof. destruct t; [discriminate | auto]. Qed.

Lemma is_token_nonempty t : is_token t = true -> t <> [].
Proof. destruct t; [discriminate | congruence]. Qed.

Lemma split_token_app t r :
  is_token t = true -> blank_start r -> split (t ++ r) = t :: split r.
Proof.
  induction t as [|c t IH]; intros Ht Hr; [discriminate|].
  rewrite is_token_cons in Ht. apply andb_true_iff in Ht as [Hc Ht].
  apply negb_true_iff in Hc.
  change ((c :: t) ++ r) with (c :: (t ++ r)).
  rewrite split_cons, Hc.
  destruct t as [|d t].
  - destruct r as [|e r]; [reflexivity|].
    simpl in Hr |- *. now rewrite Hr.
  - assert (Hd : isspace d = false).
    { simpl in Ht. apply andb_true_iff in Ht as [Hd _].
      now apply negb_true_iff in Hd. }
    change ((d :: t) ++ r) with (d :: (t ++ r)).
    cbv iota. rewrite Hd.
    change (d :: t ++ r) with ((d :: t) ++ r).
    rewrite IH; auto.
Qed.

Lemma split_token t : is_token t = true -> split t = [t].
Proof.
  intros Ht. rewrite <- (app_nil_r t) at 1.
  rewrite split_token_app; simpl; auto.
Qed.

Lemma join_cons t r : r <> [] -> join (t :: r) = t ++ space :: join r.
Proof. destruct r; [congruence | reflexivity]. Qed.

Lemma join_app l1 l2 :
  l1 <> [] -> l2 <> [] -> join (l1 ++ l2) = join l1 ++ space :: join l2.
Proof.
  induction l1 as [|t l1 IH]; intros H1 H2; [congruence|].
  destruct l1 as [|u l1].
  - simpl app. now rewrite join_cons.
  - change ((t :: u :: l1) ++ l2) with (t :: ((u :: l1) ++ l2)).
    rewrite join_cons by (simpl; congruence).
    rewrite IH by congruence.
    rewrite (join_cons t (u :: l1)) by congruence.
    now rewrite <- app_assoc.
Qed.

(** Splitting what [join] built from tokens gives the tokens back. *)
Lemma split_join ts : tokens ts -> split (join ts) = ts.
Proof.
  induction 1 as [|t r Ht Hr IH]; [reflexivity|].
  destruct r as [|u r].
  - now apply split_token.
  - rewrite join_cons by congruence.
    rewrite split_token_app by (auto; reflexivity).
    rewrite split_cons. change (isspace space) with true. cbv iota.
    now rewrite IH.
Qed.

Lemma join_single_spaced ts : tokens ts -> single_spaced (join ts).
Proof. intros H. unfold single_spaced. now rewrite split_join. Qed.

Lemma split_tokens s : tokens (split s).
Proof.
  induction s as [|c r IH]; [constructor|].
  rewrite split_cons.
  destruct (isspace c) eqn:Hc; [assumption|].
  destruct r as [|d r].
  - constructor; [simpl; now rewrite Hc | constructor].
  - destruct (isspace d) eqn:Hd.
    + constructor; [simpl; now rewrite Hc | assumption].
    + destruct (split (d :: r)) as [|t ts].
      * constructor; [simpl; now rewrite Hc | constructor].
      * inversion IH as [|? ? Ht Hts]; subst.
        constructor; [|assumption].
        rewrite is_token_cons, Hc. simpl.
        now apply is_token_forallb.
Qed.

Lemma split_blank w : forallb isspace w = true -> split w = [].
Proof.
  induction w as [|c w IH]; [reflexivity|].
  simpl forallb. intros H. apply andb_true_iff in H as [Hc Hw].
  rewrite split_cons, Hc. auto.
Qed.

Lemma split_app_blank s w :
  forallb isspace w = true -> split (s ++ w) = split s.
Proof.
  intros Hw. induction s as [|c s IH].
  - simpl. now apply split_blank.
  - change ((c :: s) ++ w) with (c :: (s ++ w)).
    rewrite !split_cons.
    destruct (isspace c); [assumption|].
    destruct s as [|d s].
    + simpl app. destruct w as [|e w]; [reflexivity|].
      pose proof (split_blank _ Hw) as Hs.
      simpl in Hw. apply andb_true_iff in Hw as [He _].
      now rewrite He, Hs.
    + change ((d :: s) ++ w) with (d :: (s ++ w)) in *.
      now rewrite IH.
Qed.

Lemma lstrip_decomp s :
  exists w, s = w ++ lstrip s /\ forallb isspace w = true.
Proof.
  induction s as [|c s [w [E Hw]]].
  - now exists [].
  - simpl. destruct (isspace c) eqn:Hc.
    + exists (c :: w). simpl. rewrite Hc, Hw. split; [congruence | reflexivity].
    + now exists [].
Qed.

Lemma split_lstrip s : split (lstrip s) = split s.
Proof.
  destruct (lstrip_decomp s) as [w [E Hw]].
  rewrite E at 2. clear E.
  induction w as [|c w IH]; [reflexivity|].
  simpl in Hw. apply andb_true_iff in Hw as [Hc Hw].
  change ((c :: w) ++ lstrip s) with (c :: (w ++ lstrip s)).
  rewrite split_cons, Hc. auto.
Qed.

Lemma split_rstrip s : split (rstrip s) = split s.
Proof.
  unfold rstrip.
  destruct (lstrip_decomp (rev s)) as [w [E Hw]].
  assert (Es : s = rev (lstrip (rev s)) ++ rev w).
  { rewrite <- rev_app_distr, <- E. now rewrite rev_involutive. }
  rewrite Es at 2.
  rewrite split_app_blank; [reflexivity|].
  apply forallb_forall. intros x Hx. apply in_rev in Hx.
  rewrite forallb_forall in Hw. auto.
Qed.

(** [name.strip().split()] is [name.split()]. *)
Lemma split_strip s : split (strip s) = split s.
Proof. unfold strip. now rewrite split_rstrip, split_lstrip. Qed.

(** The code points of the tokens are code points of the string. *)
Lemma split_In s : forall t c, In t (split s) -> In c t -> In c s.
Proof.
  induction s as [|a r IH]; intros t c Ht Hc; [contradiction|].
  rewrite split_cons in Ht.
  destruct (isspace a); [right; eauto|].
  destruct r as [|d r].
  - destruct Ht as [<-|[]]. assumption.
  - destruct (isspace d).
    + destruct Ht as [<-|Ht]; [destruct Hc as [<-|[]]; now left | right; eauto].
    + destruct (split (d :: r)) as [|u us].
      * destruct Ht as [<-|[]]. destruct Hc as [<-|[]]. now left.
      * destruct Ht as [<-|Ht].
        -- destruct Hc as [<-|Hc]; [now left | right].
           apply (IH u); [now left | assumption].
        -- right. apply (IH t); [now right | assumption].
Qed.

Lemma split_forallb (P : codepoint -> bool) s :
  forallb P s = true -> Forall (fun t => forallb P t = true) (split s).
Proof.
  intros H. rewrite forallb_forall in H.
  apply Forall_forall. intros t Ht.
  apply forallb_forall. intros c Hc. eauto using split_In.
Qed.

Lemma join_forallb (P : codepoint -> bool) ts :
  P space = true ->
  Forall (fun t => forallb P t = true) ts -> forallb P (join ts) = true.
Proof.
  intros Hsp. induction 1 as [|t r Ht Hr IH]; [reflexivity|].
  destruct r as [|u r]; [assumption|].
  rewrite join_cons by congruence.
  rewrite forallb_app, Ht.
  change (forallb P (space :: join (u :: r)))
    with (P space && forallb P (join (u :: r))).
  now rewrite Hsp, IH.
Qed.

(** ** The Latin-1 case tables *)

(** A check on the first [n] code points, run once, holds at each. *)
Lemma below_check (n : nat) (P : codepoint -> bool) :
  forallb P (List.map N.of_nat (seq 0 n)) = true ->
  forall c, (c < N.of_nat n)%N -> P c = true.
Proof.
  intros H c Hc. rewrite forallb_forall in H. apply H.
  rewrite <- (N2Nat.id c). apply in_map, in_seq. lia.
Qed.

Ltac by_table n P :=
  let H := fresh in
  intros c H;
  apply (@below_check n P); [vm_compute; reflexivity | exact H].

Ltac n_cases :=
  repeat match goal with
    | |- context [(?a <=? ?b)%N] =>
        destruct (N.leb_spec a b); try lia; simpl
    | |- context [(?a =? ?b)%N] =>
        destruct (N.eqb_spec a b); try lia; simpl
    end.

Module Latin1Facts.
Import Latin1.

Lemma ascii_table : forall c, (c < 128)%N -> ascii_ok c = true.
Proof. by_table 128%nat ascii_ok. Qed.

Lemma str_eqb_eq a b : str_eqb a b = true <-> a = b.
Proof.
  unfold str_eqb. destruct (list_eq_dec N.eq_dec a b); split;
    congruence.
Qed.

Section AsciiCodePoint.
Variable c : codepoint.
Hypothesis Hc : is_ascii_cp c = true.

Let table : ascii_ok c = true.
Proof. apply ascii_table. now apply N.ltb_lt. Qed.

Ltac field k :=
  let H := fresh in
  pose proof table as H; unfold ascii_ok in H;
  repeat (apply andb_true_iff in H as [H ?]); k.

Lemma lower_cp_ascii : is_ascii_cp (lower_cp c) = true.
Proof. field assumption. Qed.

Lemma title1_ascii : is_ascii_cp (title1 c) = true.
Proof. field assumption. Qed.

Lemma title_cp_ascii : title_cp c = [title1 c].
Proof. field ltac:(now apply str_eqb_eq). Qed.

Lemma nfkd_cp_ascii : nfkd_cp c = [c].
Proof. field ltac:(now apply str_eqb_eq). Qed.

Lemma lower_cp_idem : lower_cp (lower_cp c) = lower_cp c.
Proof. field ltac:(now apply N.eqb_eq). Qed.

Lemma lower_cp_title1 : lower_cp (title1 c) = lower_cp c.
Proof. field ltac:(now apply N.eqb_eq). Qed.

Lemma title_cp_title1 : title_cp (title1 c) = [title1 c].
Proof. field ltac:(now apply str_eqb_eq). Qed.

Lemma is_cased_title1 : is_cased_cp (title1 c) = is_cased_cp c.
Proof. field ltac:(now apply eqb_prop). Qed.

Lemma is_cased_lower_cp : is_cased_cp (lower_cp c) = is_cased_cp c.
Proof. field ltac:(now apply eqb_prop). Qed.
End AsciiCodePoint.

Lemma nonspace_table : forall c, (c < 256)%N -> nonspace_ok c = true.
Proof. by_table 256%nat nonspace_ok. Qed.

Lemma lower_cp_high c : (256 <= c)%N -> lower_cp c = c.
Proof. intros H. unfold lower_cp, is_upper_cp. now n_cases. Qed.

Lemma title_cp_high c : (256 <= c)%N -> title_cp c = [c].
Proof. intros H. unfold title_cp. now n_cases. Qed.

Lemma nonspace_all c : nonspace_ok c = true.
Proof.
  destruct (N.lt_ge_cases c 256) as [H|H]; [now apply nonspace_table|].
  unfold nonspace_ok. rewrite lower_cp_high, title_cp_high by assumption.
  simpl. now destruct (isspace c).
Qed.

Lemma lower_cp_nonspace c :
  isspace c = false -> isspace (lower_cp c) = false.
Proof.
  intros H. pose proof (nonspace_all c) as T. unfold nonspace_ok in T.
  rewrite H in T. simpl in T. apply andb_true_iff in T as [T _].
  now apply negb_true_iff.
Qed.

Lemma title_cp_nonspace c :
  isspace c = false ->
  forallb (fun d => negb (isspace d)) (title_cp c) = true.
Proof.
  intros H. pose proof (nonspace_all c) as T. unfold nonspace_ok in T.
  rewrite H in T. simpl in T. now apply andb_true_iff in T as [_ T].
Qed.

Lemma title_cp_nonempty c : title_cp c <> [].
Proof.
  unfold title_cp.
  repeat match goal with
         | |- context [if ?b then _ else _] => destruct b
         end; discriminate.
Qed.

(** *** Strings *)

Lemma title_from_ascii_cons b c r :
  is_ascii_cp c = true ->
  title_from b (c :: r) =
  (if b then lower_cp c else title1 c) :: title_from (is_cased_cp c) r.
Proof.
  intros Hc. simpl. rewrite (title_cp_ascii _ Hc). now destruct b.
Qed.

Lemma lower_ascii s : is_ascii s = true -> is_ascii (lower s) = true.
Proof.
  induction s as [|c s IH]; [reflexivity|]. simpl.
  intros H. apply andb_true_iff in H as [Hc Hs].
  now rewrite (lower_cp_ascii _ Hc), IH.
Qed.

Lemma title_from_ascii s :
  forall b, is_ascii s = true -> is_ascii (title_from b s) = true.
Proof.
  induction s as [|c s IH]; intros b H; [reflexivity|].
  simpl in H. apply andb_true_iff in H as [Hc Hs].
  rewrite title_from_ascii_cons by assumption. simpl.
  rewrite IH by assumption.
  destruct b; [rewrite (lower_cp_ascii _ Hc) | rewrite (title1_ascii _ Hc)];
    reflexivity.
Qed.

Lemma lower_title_from s :
  forall b, is_ascii s = true -> lower (title_from b s) = lower s.
Proof.
  induction s as [|c s IH]; intros b H; [reflexivity|].
  simpl in H. apply andb_true_iff in H as [Hc Hs].
  rewrite title_from_ascii_cons by assumption. simpl.
  rewrite IH by assumption.
  destruct b; [rewrite (lower_cp_idem _ Hc) | rewrite (lower_cp_title1 _ Hc)];
    reflexivity.
Qed.

Lemma title_from_idem s :
  forall b, is_ascii s = true ->
  title_from b (title_from b s) = title_from b s.
Proof.
  induction s as [|c s IH]; intros b H; [reflexivity|].
  simpl in H. apply andb_true_iff in H as [Hc Hs].
  rewrite title_from_ascii_cons by assumption.
  destruct b.
  - rewrite title_from_ascii_cons by now apply lower_cp_ascii.
    rewrite (lower_cp_idem _ Hc), (is_cased_lower_cp _ Hc).
    now rewrite IH.
  - rewrite title_from_ascii_cons by now apply title1_ascii.
    rewrite (is_cased_title1 _ Hc), IH by assumption.
    f_equal. unfold title1 at 1. now rewrite (title_cp_title1 _ Hc).
Qed.

Lemma nfkd_ascii s : is_ascii s = true -> nfkd s = s.
Proof.
  induction s as [|c s IH]; [reflexivity|].
  intros H. simpl in H. apply andb_true_iff in H as [Hc Hs].
  unfold nfkd in *. simpl flat_map.
  now rewrite (nfkd_cp_ascii _ Hc), IH.
Qed.

Lemma title_from_nonspace s :
  forall b, forallb (fun d => negb (isspace d)) s = true ->
  forallb (fun d => negb (isspace d)) (title_from b s) = true.
Proof.
  induction s as [|c s IH]; intros b H; [reflexivity|].
  simpl in H. apply andb_true_iff in H as [Hc Hs].
  apply negb_true_iff in Hc.
  simpl. rewrite forallb_app, IH by assumption.
  destruct b; simpl.
  - now rewrite (lower_cp_nonspace _ Hc).
  - now rewrite (title_cp_nonspace _ Hc).
Qed.

Lemma title_token s : is_token s = true -> is_token (title s) = true.
Proof.
  intros H. pose proof (is_token_forallb _ H) as Hf.
  pose proof (title_from_nonspace s false Hf) as Ht.
  destruct s as [|c s]; [discriminate|].
  unfold title in *. simpl in *.
  destruct (title_cp c) as [|e es] eqn:E; [now apply title_cp_nonempty in E|].
  exact Ht.
Qed.

End Latin1Facts.

Lemma Latin1_conforms : Conforms Latin1.unicode.
Proof.
  constructor; simpl; auto using Latin1Facts.nfkd_ascii,
    Latin1Facts.title_token.
Qed.

(** ** Indexing and slicing *)

Lemma py_index_last {A : Type} (l : list A) (a : A) :
  py_index (l ++ [a]) (-1) = Returns a.
Proof.
  unfold py_index. rewrite length_app. simpl length.
  replace (-1 <? 0)%Z with true by reflexivity.
  replace (-1 + Z.of_nat (length l + 1))%Z with (Z.of_nat (length l)) by lia.
  destruct (Z.ltb_spec (Z.of_nat (length l)) 0); [lia|].
  destruct (Z.leb_spec (Z.of_nat (length l + 1)) (Z.of_nat (length l)));
    [lia|].
  simpl. rewrite Nat2Z.id, nth_error_app2 by lia.
  now rewrite Nat.sub_diag.
Qed.

Lemma py_index_first {A : Type} (l : list A) (a : A) :
  py_index (a :: l) 0 = Returns a.
Proof.
  unfold py_index. replace (0 <? 0)%Z with false by reflexivity.
  destruct (Z.leb_spec (Z.of_nat (length (a :: l))) 0);
    [simpl length in *; lia | reflexivity].
Qed.

Lemma clamp_nat {A : Type} (l : list A) (k : nat) :
  clamp l (Z.of_nat k) = Nat.min k (length l).
Proof.
  unfold clamp. destruct (Z.ltb_spec (Z.of_nat k) 0); lia.
Qed.

Lemma slice_to_nat {A : Type} (l : list A) (k : nat) :
  slice_to l (Z.of_nat k) = firstn k l.
Proof.
  unfold slice_to. rewrite clamp_nat.
  destruct (Nat.le_ge_cases k (length l)) as [H|H].
  - now rewrite Nat.min_l.
  - rewrite Nat.min_r by assumption.
    now rewrite firstn_all, firstn_all2.
Qed.

Lemma slice_from_nat {A : Type} (l : list A) (k : nat) :
  slice_from l (Z.of_nat k) = skipn k l.
Proof.
  unfold slice_from. rewrite clamp_nat.
  destruct (Nat.le_ge_cases k (length l)) as [H|H].
  - now rewrite Nat.min_l.
  - rewrite Nat.min_r by assumption.
    now rewrite skipn_all, skipn_all2.
Qed.

Lemma slice_to_init {A : Type} (l : list A) (a : A) :
  slice_to (l ++ [a]) (-1) = l.
Proof.
  unfold slice_to, clamp. rewrite length_app. simpl length.
  replace (-1 <? 0)%Z with true by reflexivity.
  replace (Z.to_nat _) with (length l) by lia.
  rewrite firstn_app, Nat.sub_diag, firstn_all. simpl. apply app_nil_r.
Qed.

(** A list of two or more elements ends in a last one after a non-empty
    front. *)
Lemma init_last {A : Type} (l : list A) :
  (2 <= length l)%nat ->
  exists init last, l = init ++ [last] /\ init <> [].
Proof.
  intros H. destruct (@exists_last _ l) as [init [last E]].
  { destruct l; simpl in H; [lia | discriminate]. }
  exists init, last. split; [assumption|].
  intros ->. subst l. simpl in H. lia.
Qed.

(** ** Membership in the two tables *)

Lemma mem_In x l : mem x l = true <-> In x l.
Proof.
  unfold mem. rewrite existsb_exists. split.
  - intros [y [Hy E]]. apply Latin1Facts.str_eqb_eq in E. now subst.
  - intros H. exists x. split; [assumption|].
    now apply Latin1Facts.str_eqb_eq.
Qed.

Lemma surname_prefixes_particles x :
  mem x surname_prefixes = true -> mem x particles = true.
Proof.
  rewrite !mem_In. unfold surname_prefixes, particles. simpl.
  intuition.
Qed.

(** ** Layout A: [reformat_rider_name] *)

Lemma lower_token s :
  is_token s = true -> is_token (Latin1.lower s) = true.
Proof.
  destruct s as [|c s]; [discriminate|].
  rewrite is_token_cons. intros H. unfold Latin1.lower.
  simpl List.map. rewrite is_token_cons.
  apply andb_true_iff in H as [Hc Hs]. apply andb_true_iff. split.
  - apply negb_true_iff in Hc. apply negb_true_iff.
    now apply Latin1Facts.lower_cp_nonspace.
  - rewrite forallb_forall in Hs. apply forallb_forall.
    intros d Hd. apply in_map_iff in Hd as [e [<- He]].
    specialize (Hs e He). apply negb_true_iff in Hs. apply negb_true_iff.
    now apply Latin1Facts.lower_cp_nonspace.
Qed.

Section LayoutA.

Variable U : Unicode.
Hypothesis HU : Conforms U.

Lemma normalized_ascii name : is_ascii (normalized U name) = true.
Proof.
  unfold normalized, decode_utf8, encode_ascii_ignore, is_ascii.
  apply forallb_forall. intros c Hc. now apply filter_In in Hc.
Qed.

Lemma normalized_of_ascii name :
  is_ascii name = true -> normalized U name = name.
Proof.
  intros H. unfold normalized, decode_utf8, encode_ascii_ignore.
  rewrite (conf_nfkd HU) by assumption.
  apply forallb_filter_id. exact H.
Qed.

Lemma proper_case_eq p :
  is_ascii p = true ->
  proper_case U p =
  if mem (Latin1.lower p) surname_prefixes then Latin1.lower p
  else Latin1.title p.
Proof.
  intros H. unfold proper_case.
  now rewrite (conf_lower HU), (conf_title HU) by assumption.
Qed.

Lemma proper_case_token p :
  is_ascii p = true -> is_token p = true ->
  is_token (proper_case U p) = true.
Proof.
  intros Ha Ht. rewrite proper_case_eq by assumption.
  destruct (mem _ _); [now apply lower_token|].
  now apply Latin1Facts.title_token.
Qed.

Lemma proper_case_ascii p :
  is_ascii p = true -> is_ascii (proper_case U p) = true.
Proof.
  intros Ha. rewrite proper_case_eq by assumption.
  destruct (mem _ _); [now apply Latin1Facts.lower_ascii|].
  now apply Latin1Facts.title_from_ascii.
Qed.

(** The parts of a name: ASCII tokens. *)
Lemma parts_ascii name :
  Forall (fun p => is_ascii p = true) (split (normalized U name)).
Proof. apply split_forallb, normalized_ascii. Qed.

Lemma proper_parts_tokens name ps :
  incl ps (split (normalized U name)) ->
  tokens (List.map (proper_case U) ps).
Proof.
  intros Hi. apply Forall_forall. intros t Ht.
  apply in_map_iff in Ht as [p [<- Hp]]. apply Hi in Hp.
  apply proper_case_token.
  - pose proof (parts_ascii name) as Ha.
    rewrite Forall_forall in Ha. auto.
  - pose proof (split_tokens (normalized U name)) as Hk.
    rewrite Forall_forall in Hk. auto.
Qed.

(** With two parts or more, the last part goes first. *)
Lemma reformat_rider_name_parts name init last :
  falsy name = false ->
  split (normalized U (text name)) = init ++ [last] ->
  init <> [] ->
  reformat_rider_name U name =
  Returns (join (List.map (proper_case U) (last :: init))).
Proof.
  intros Hn Hp Hi. unfold reformat_rider_name.
  rewrite Hn, split_strip, Hp.
  assert (Hl : (length (init ++ [last]) <? 2)%nat = false).
  { apply Nat.ltb_ge. rewrite length_app. simpl.
    destruct init; [congruence | simpl; lia]. }
  rewrite Hl, py_index_last, slice_to_init. simpl bind.
  simpl List.map. rewrite join_cons; [reflexivity|].
  destruct init; [congruence | discriminate].
Qed.

End LayoutA.

(** The tokens of a layout A output built from two parts or more. *)
Lemma reformat_rider_name_tokens (U : Unicode) (HU : Conforms U)
    (name : option str) (init : list str) (last : str) :
  falsy name = false ->
  split (normalized U (text name)) = init ++ [last] ->
  init <> [] ->
  exists out,
    reformat_rider_name U name = Returns out
    /\ split out = List.map (proper_case U) (last :: init).
Proof.
  intros Hn Hp Hi.
  exists (join (List.map (proper_case U) (last :: init))). split.
  - now apply reformat_rider_name_parts.
  - apply split_join.
    apply (proper_parts_tokens U HU (text name) (last :: init)).
    rewrite Hp. intros p [<-|Hin]; apply in_or_app; [right; now left | now left].
Qed.

(** C1 (as amended). The layout A path does reorder: when the
    accent-stripped name has two parts or more, the last part is moved to
    the front, so the output's tokens are the proper-cased last part
    followed by the proper-cased earlier parts in their order, as many as
    the parts. *)
Theorem reformat_rider_name_last_part_first (U : Unicode) (HU : Conforms U)
    (name : option str) (init : list str) (last : str) :
  falsy name = false ->
  split (normalized U (text name)) = init ++ [last] ->
  init <> [] ->
  exists out,
    reformat_rider_name U name = Returns out
    /\ split out = proper_case U last :: List.map (proper_case U) init
    /\ length (split out) = length (split (normalized U (text name))).
Proof.
  intros Hn Hp Hi.
  destruct (reformat_rider_name_tokens U HU name init last Hn Hp Hi)
    as [out [Hout Hsplit]].
  exists out. split; [assumption|]. split; [assumption|].
  rewrite Hsplit, Hp, length_app. simpl. rewrite length_map. lia.
Qed.

Lemma reformat_rider_name_last_part_first_witness :
  falsy (Some (lit "Simon Yates")) = false
  /\ split (normalized Latin1.unicode (text (Some (lit "Simon Yates"))))
     = [lit "Simon"] ++ [lit "Yates"]
  /\ [lit "Simon"] <> []
  /\ exists out,
       reformat_rider_name Latin1.unicode (Some (lit "Simon Yates"))
       = Returns out
       /\ split out
          = proper_case Latin1.unicode (lit "Yates")
            :: List.map (proper_case Latin1.unicode) [lit "Simon"]
       /\ length (split out)
          = length (split (normalized Latin1.unicode
                             (text (Some (lit "Simon Yates"))))).
Proof.
  repeat split; try discriminate.
  apply (@reformat_rider_name_last_part_first Latin1.unicode Latin1_conforms
           (Some (lit "Simon Yates")) [lit "Simon"] (lit "Yates"));
    [reflexivity | vm_compute; reflexivity | discriminate].
Defined.

(** C1 as stated fails: "Simon Yates" does not come back unchanged, the
    two tokens are swapped. *)
Lemma reformat_rider_name_simon_yates_reordered :
  reformat_rider_name Latin1.unicode (Some (lit "Simon Yates"))
  = Returns (lit "Yates Simon")
  /\ reformat_rider_name Latin1.unicode (Some (lit "Simon Yates"))
     <> Returns (lit "Simon Yates").
Proof. split; [vm_compute; reflexivity | vm_compute; discriminate]. Qed.

(** ** Layout B: [_format_name] *)

Section LayoutB.

Variable U : Unicode.

Lemma enumerate_from_app (l1 l2 : list str) :
  forall i,
    enumerate_from i (l1 ++ l2) =
    enumerate_from i l1 ++ enumerate_from (i + Z.of_nat (length l1)) l2.
Proof.
  induction l1 as [|a l1 IH]; intros i.
  - simpl. now rewrite Z.add_0_r.
  - simpl enumerate_from. simpl app. rewrite IH. do 3 f_equal.
    simpl length. lia.
Qed.

(** The scan keeps its index over parts that are no particles. *)
Lemma scan_no_particle (l : list str) :
  (forall p, In p l -> is_particle U p = false) ->
  forall i idx,
    fold_left (fun idx ip => if is_particle U (snd ip) then fst ip else idx)
      (enumerate_from i l) idx = idx.
Proof.
  induction l as [|a l IH]; intros H i idx; [reflexivity|].
  simpl. rewrite (H a) by now left.
  apply IH. intros p Hp. apply H. now right.
Qed.

Lemma last_particle_idx_none (parts : list str) :
  (forall p, In p parts -> is_particle U p = false) ->
  last_particle_idx U parts = (-1)%Z.
Proof. intros H. now apply scan_no_particle. Qed.

(** The scan ends on the index of the last particle. *)
Lemma last_particle_idx_last (l1 l2 : list str) (p : str) :
  is_particle U p = true ->
  (forall q, In q l2 -> is_particle U q = false) ->
  last_particle_idx U (l1 ++ p :: l2) = Z.of_nat (length l1).
Proof.
  intros Hp H2. unfold last_particle_idx, enumerate.
  rewrite enumerate_from_app, fold_left_app. simpl enumerate_from.
  simpl fold_left. rewrite Hp. now apply scan_no_particle.
Qed.

(** A part at index [i] splits the list around it. *)
Lemma nth_error_around (parts : list str) (i : nat) (p : str) :
  nth_error parts i = Some p ->
  parts = firstn i parts ++ p :: skipn (S i) parts
  /\ length (firstn i parts) = i.
Proof.
  revert i. induction parts as [|a l IH]; intros [|i] H; try discriminate.
  - injection H as <-. now split.
  - simpl in H. destruct (IH i H) as [E L]. split.
    + change (a :: l = a :: (firstn i l ++ p :: skipn (S i) l)).
      now rewrite <- E.
    + simpl. now rewrite L.
Qed.

Lemma In_skipn_nth (l : list str) (k : nat) (q : str) :
  In q (skipn k l) -> exists j, (k <= j)%nat /\ nth_error l j = Some q.
Proof.
  revert k. induction l as [|a l IH]; intros k H.
  - destruct k; contradiction.
  - destruct k as [|k].
    + apply In_nth_error in H as [j Hj]. exists j. split; [lia | assumption].
    + apply IH in H as [j [Hk Hj]]. exists (S j). split; [lia | assumption].
Qed.

Lemma last_particle_idx_at (parts : list str) (i : nat) (p : str) :
  nth_error parts i = Some p ->
  is_particle U p = true ->
  (forall j q, (i < j)%nat -> nth_error parts j = Some q ->
               is_particle U q = false) ->
  last_particle_idx U parts = Z.of_nat i.
Proof.
  intros Hi Hp Hafter.
  destruct (nth_error_around _ _ _ Hi) as [E L].
  rewrite E, last_particle_idx_last, L; auto.
  intros q Hq. apply In_skipn_nth in Hq as [j [Hj Hq]].
  apply (Hafter j q); [lia | assumption].
Qed.

Lemma last_particle_idx_lower (parts : list str) :
  (-1 <= last_particle_idx U parts)%Z.
Proof.
  unfold last_particle_idx, enumerate.
  assert (G : forall l i idx, (-1 <= idx)%Z -> (0 <= i)%Z ->
            (-1 <= fold_left
                     (fun idx ip =>
                        if is_particle U (snd ip) then fst ip else idx)
                     (enumerate_from i l) idx)%Z).
  { induction l as [|a l IH]; intros i idx H1 H2; [assumption|].
    simpl. apply IH; [|lia]. destruct (is_particle U a); lia. }
  apply G; lia.
Qed.

(** The two spans partition the parts, and the surname is never empty. *)
Lemma name_spans_total (parts : list str) :
  parts <> [] ->
  exists surname first,
    name_spans U parts = Returns (surname, first)
    /\ parts = surname ++ first /\ surname <> [].
Proof.
  intros Hne. unfold name_spans.
  destruct (Z.leb_spec 0 (last_particle_idx U parts)) as [H|H].
  - set (e := Z.min (last_particle_idx U parts + 2)
                    (Z.of_nat (length parts))).
    assert (Hlen : (1 <= length parts)%nat)
      by (destruct parts; [congruence | simpl; lia]).
    assert (He : e = Z.of_nat (Z.to_nat e)) by (unfold e; lia).
    rewrite He, slice_to_nat, slice_from_nat.
    eexists _, _. split; [reflexivity|]. split.
    + now rewrite firstn_skipn.
    + destruct parts as [|a l]; [congruence|].
      assert (Hk : exists k, Z.to_nat e = S k).
      { exists (Z.to_nat e - 1)%nat. unfold e. simpl length in *. lia. }
      destruct Hk as [k ->]. discriminate.
  - destruct parts as [|a l]; [congruence|].
    rewrite py_index_first. simpl bind.
    change 1%Z with (Z.of_nat 1). rewrite slice_from_nat.
    exists [a], l. repeat split. discriminate.
Qed.

Lemma name_spans_inv (parts surname first : list str) :
  name_spans U parts = Returns (surname, first) ->
  parts = surname ++ first /\ surname <> [].
Proof.
  intros H. destruct parts as [|a l].
  - discriminate H.
  - destruct (@name_spans_total (a :: l)) as [s [f [E [P N]]]];
      [discriminate|].
    rewrite E in H. injection H as <- <-. now split.
Qed.

(** The reordering branch. *)
Lemma format_name_reordered (name : option str) (surname first : list str) :
  falsy name = false ->
  name_spans U (split (text name)) = Returns (surname, first) ->
  first <> [] ->
  _format_name U name =
  Returns (Some (join (List.map (fix_caps U) first
                       ++ List.map (fix_caps U) surname))).
Proof.
  intros Hn Hs Hf. destruct (name_spans_inv _ _ _ Hs) as [E Hsn].
  unfold _format_name. rewrite Hn, split_strip.
  assert (Hl : (length (split (text name)) <? 2)%nat = false).
  { apply Nat.ltb_ge. rewrite E, length_app.
    destruct surname; [congruence|]. destruct first; [congruence|].
    simpl. lia. }
  rewrite Hl, Hs. simpl bind. simpl fst. simpl snd.
  destruct first as [|f fs]; [congruence|].
  rewrite join_app; [reflexivity | discriminate |].
  destruct surname; [congruence | discriminate].
Qed.

(** The pass-through branches. *)
Lemma format_name_all_surname (name : option str) (surname : list str) :
  falsy name = false ->
  name_spans U (split (text name)) = Returns (surname, []) ->
  _format_name U name = Returns (Some (strip (text name))).
Proof.
  intros Hn Hs. unfold _format_name. rewrite Hn, split_strip, Hs.
  simpl bind. simpl snd. now destruct (_ <? _)%nat.
Qed.

Lemma format_name_single (name : option str) :
  falsy name = false ->
  (length (split (text name)) < 2)%nat ->
  _format_name U name = Returns (Some (strip (text name))).
Proof.
  intros Hn Hl. unfold _format_name. rewrite Hn, split_strip.
  apply Nat.ltb_lt in Hl. now rewrite Hl.
Qed.

Hypothesis HU : Conforms U.

Lemma fix_caps_token (p : str) :
  is_token p = true -> is_token (fix_caps U p) = true.
Proof.
  intros H. unfold fix_caps.
  destruct (u_isupper U p); [now apply (conf_title_token HU) | assumption].
Qed.

Lemma fix_caps_tokens (ps : list str) :
  tokens ps -> tokens (List.map (fix_caps U) ps).
Proof.
  intros H. apply Forall_map. revert H. apply Forall_impl.
  exact fix_caps_token.
Qed.

Lemma fix_caps_ascii (p : str) :
  is_ascii p = true -> is_ascii (fix_caps U p) = true.
Proof.
  intros H. unfold fix_caps. destruct (u_isupper U p); [|assumption].
  rewrite (conf_title HU) by assumption.
  now apply Latin1Facts.title_from_ascii.
Qed.

Lemma lower_fix_caps (p : str) :
  is_ascii p = true -> Latin1.lower (fix_caps U p) = Latin1.lower p.
Proof.
  intros H. unfold fix_caps. destruct (u_isupper U p); [|reflexivity].
  rewrite (conf_title HU) by assumption.
  now apply Latin1Facts.lower_title_from.
Qed.

Lemma title_fix_caps (p : str) :
  is_ascii p = true -> Latin1.title (fix_caps U p) = Latin1.title p.
Proof.
  intros H. unfold fix_caps. destruct (u_isupper U p); [|reflexivity].
  rewrite (conf_title HU) by assumption.
  now apply Latin1Facts.title_from_idem.
Qed.

End LayoutB.

(** C7. Layout B surname detection.  With a particle at index [i] and
    none after it, the surname span is the parts up to and including the
    one after the particle (index [i + 1], where there is one) and the
    first name is what remains; without any particle the surname is the
    first part and the first name all the others.  So
    "van den Berg Marijn" gives "Marijn van den Berg". *)
Theorem name_spans_surname_detection (U : Unicode) (parts : list str) :
  (2 <= length parts)%nat ->
  (forall i p,
      nth_error parts i = Some p ->
      is_particle U p = true ->
      (forall j q, (i < j)%nat -> nth_error parts j = Some q ->
                   is_particle U q = false) ->
      name_spans U parts
      = Returns (firstn (i + 2) parts, skipn (i + 2) parts))
  /\ ((forall p, In p parts -> is_particle U p = false) ->
      name_spans U parts = Returns (firstn 1 parts, skipn 1 parts))
  /\ _format_name Latin1.unicode (Some (lit "van den Berg Marijn"))
     = Returns (Some (lit "Marijn van den Berg")).
Proof.
  intros Hlen. split; [|split].
  - intros i p Hi Hp Hafter. unfold name_spans.
    rewrite (last_particle_idx_at U _ _ _ Hi Hp Hafter).
    destruct (Z.leb_spec 0 (Z.of_nat i)); [|lia].
    replace (Z.min (Z.of_nat i + 2) (Z.of_nat (length parts)))
      with (Z.of_nat (Nat.min (i + 2) (length parts))) by lia.
    rewrite slice_to_nat, slice_from_nat.
    destruct (Nat.le_ge_cases (i + 2) (length parts)) as [H1|H1].
    + now rewrite Nat.min_l.
    + rewrite Nat.min_r by assumption.
      now rewrite firstn_all, skipn_all, firstn_all2, skipn_all2.
  - intros Hnone. unfold name_spans.
    rewrite (last_particle_idx_none U _ Hnone).
    destruct parts as [|a l]; [simpl in Hlen; lia|].
    rewrite py_index_first. simpl.
    change 1%Z with (Z.of_nat 1). now rewrite slice_from_nat.
  - vm_compute. reflexivity.
Qed.

Lemma name_spans_surname_detection_witness :
  (2 <= length [lit "van"; lit "den"; lit "Berg"; lit "Marijn"])%nat
  /\ name_spans Latin1.unicode
       [lit "van"; lit "den"; lit "Berg"; lit "Marijn"]
     = Returns ([lit "van"; lit "den"; lit "Berg"], [lit "Marijn"]).
Proof.
  split; [simpl; lia|].
  apply (proj1 (@name_spans_surname_detection Latin1.unicode
                  [lit "van"; lit "den"; lit "Berg"; lit "Marijn"]
                  ltac:(simpl; lia)) 1%nat (lit "den")).
  - reflexivity.
  - reflexivity.
  - intros j q Hj Hq.
    destruct j as [|[|[|[|j]]]]; try lia.
    + injection Hq as <-. reflexivity.
    + injection Hq as <-. reflexivity.
    + simpl in Hq. destruct j; discriminate.
Defined.

(** The tokens of a reordered layout B output. *)
Lemma format_name_tokens (U : Unicode) (HU : Conforms U)
    (name : option str) (surname first : list str) :
  falsy name = false ->
  name_spans U (split (text name)) = Returns (surname, first) ->
  first <> [] ->
  split (text name) = surname ++ first
  /\ split (join (List.map (fix_caps U) first
                  ++ List.map (fix_caps U) surname))
     = List.map (fix_caps U) first ++ List.map (fix_caps U) surname.
Proof.
  intros Hn Hs Hf.
  destruct (name_spans_inv _ _ _ _ Hs) as [E Hsn].
  pose proof (split_tokens (text name)) as Htok. rewrite E in Htok.
  apply Forall_app in Htok as [Hts Htf].
  split; [assumption|].
  apply split_join, Forall_app. split; now apply fix_caps_tokens.
Qed.

(** C10. When [_format_name] splits a name into a surname span and a
    non-empty first-name span, the tokens of its output are the tokens of
    the input, first-name span first and surname span after it, each span
    in its own order; a token is kept as it is or, when all upper-case,
    replaced by its title-casing, which for an ASCII token changes letter
    case only. *)
Theorem format_name_keeps_tokens (U : Unicode) (HU : Conforms U)
    (name : option str) (surname first : list str) :
  falsy name = false ->
  name_spans U (split (text name)) = Returns (surname, first) ->
  first <> [] ->
  exists out,
    _format_name U name = Returns (Some out)
    /\ split (text name) = surname ++ first
    /\ (2 <= length (split (text name)))%nat
    /\ split out
       = List.map (fix_caps U) first ++ List.map (fix_caps U) surname
    /\ length (split out) = length (split (text name))
    /\ (forall p,
           fix_caps U p = p
           \/ (u_isupper U p = true /\ fix_caps U p = u_title U p))
    /\ (forall p, is_ascii p = true ->
                  Latin1.lower (fix_caps U p) = Latin1.lower p).
Proof.
  intros Hn Hs Hf.
  destruct (name_spans_inv _ _ _ _ Hs) as [E Hsn].
  pose proof (split_tokens (text name)) as Htok. rewrite E in Htok.
  apply Forall_app in Htok as [Hts Htf].
  eexists. split;
    [exact (@format_name_reordered U name surname first Hn Hs Hf)|].
  split; [assumption|]. split.
  { rewrite E, length_app. destruct surname; [congruence|].
    destruct first; [congruence|]. simpl. lia. }
  assert (Hout : split (join (List.map (fix_caps U) first
                              ++ List.map (fix_caps U) surname))
                 = List.map (fix_caps U) first
                   ++ List.map (fix_caps U) surname).
  { apply split_join, Forall_app. split; now apply fix_caps_tokens. }
  split; [assumption|]. split.
  { rewrite Hout, E, !length_app, !length_map. lia. }
  split.
  - intros p. unfold fix_caps. destruct (u_isupper U p); auto.
  - intros p Hp. now apply lower_fix_caps.
Qed.

Lemma format_name_keeps_tokens_witness :
  falsy (Some (lit "Johannessen Tobias Halland")) = false
  /\ exists out,
       _format_name Latin1.unicode (Some (lit "Johannessen Tobias Halland"))
       = Returns (Some out)
       /\ split out
          = List.map (fix_caps Latin1.unicode)
              [lit "Tobias"; lit "Halland"]
            ++ List.map (fix_caps Latin1.unicode) [lit "Johannessen"].
Proof.
  split; [reflexivity|].
  destruct (@format_name_keeps_tokens Latin1.unicode Latin1_conforms
              (Some (lit "Johannessen Tobias Halland"))
              [lit "Johannessen"] [lit "Tobias"; lit "Halland"])
    as [out [H1 [_ [_ [H2 _]]]]];
    [reflexivity | vm_compute; reflexivity | discriminate |].
  exists out. split; assumption.
Defined.

(** C9. Neither normaliser raises: every input, absent, empty or any
    string, gets a result; absent and empty inputs give the empty string
    (layout A) and [None] (layout B). *)
Theorem normalisers_never_raise (U : Unicode) (name : option str) :
  (exists r, reformat_rider_name U name = Returns r)
  /\ (exists r, _format_name U name = Returns r)
  /\ reformat_rider_name U None = Returns []
  /\ reformat_rider_name U (Some []) = Returns []
  /\ _format_name U None = Returns None
  /\ _format_name U (Some []) = Returns None.
Proof.
  split; [|split; [|repeat split]].
  - unfold reformat_rider_name.
    destruct (falsy name); [now eexists|].
    destruct (Nat.ltb_spec
                (length (split (strip (normalized U (text name))))) 2)
      as [H|H]; [now eexists|].
    destruct (init_last _ H) as [init [last [E _]]].
    rewrite E, py_index_last. simpl. now eexists.
  - unfold _format_name.
    destruct (falsy name); [now eexists|].
    destruct (Nat.ltb_spec (length (split (strip (text name)))) 2)
      as [H|H]; [now eexists|].
    destruct (@name_spans_total U (split (strip (text name))))
      as [s [f [E _]]].
    { intros E. rewrite E in H. simpl in H. lia. }
    rewrite E. simpl. destruct f; now eexists.
Qed.

(** C5 (as amended). Layout A output built from two parts or more holds
    ASCII code points only, hence no diacritical mark. *)
Theorem reformat_rider_name_ascii (U : Unicode) (HU : Conforms U)
    (name : option str) (out : str) :
  reformat_rider_name U name = Returns out ->
  (2 <= length (split (normalized U (text name))))%nat ->
  is_ascii out = true.
Proof.
  intros Hout Hlen.
  destruct (falsy name) eqn:Hn.
  { unfold reformat_rider_name in Hout. rewrite Hn in Hout.
    now injection Hout as <-. }
  destruct (init_last _ Hlen) as [init [last [E Hi]]].
  rewrite (reformat_rider_name_parts U name init last Hn E Hi) in Hout.
  assert (Ej : out = join (List.map (proper_case U) (last :: init)))
    by congruence.
  rewrite Ej. apply join_forallb; [reflexivity|].
  apply Forall_map, Forall_forall. intros p Hp.
  apply (proper_case_ascii U HU).
  pose proof (parts_ascii U (text name)) as Ha.
  rewrite Forall_forall in Ha. apply Ha. rewrite E.
  destruct Hp as [<-|Hp]; apply in_or_app; [right; now left | now left].
Qed.

Lemma reformat_rider_name_ascii_witness :
  reformat_rider_name Latin1.unicode (Some pietri_jean)
  = Returns (lit "Jean Pietri")
  /\ (2 <= length (split (normalized Latin1.unicode
                            (text (Some pietri_jean)))))%nat
  /\ is_ascii (lit "Jean Pietri") = true.
Proof.
  split; [vm_compute; reflexivity|]. split; [vm_compute; lia|].
  apply (@reformat_rider_name_ascii Latin1.unicode Latin1_conforms
           (Some pietri_jean));
    [vm_compute; reflexivity | vm_compute; lia].
Defined.

(** C5 as stated fails on the layout B path, which strips no accent:
    "Piétri Jean" comes out as "Jean Piétri", U+00E9 included. *)
Lemma format_name_keeps_accents :
  _format_name Latin1.unicode (Some pietri_jean) = Returns (Some jean_pietri)
  /\ is_ascii jean_pietri = false
  /\ In 233%N jean_pietri.
Proof.
  split; [vm_compute; reflexivity|]. split; [reflexivity|].
  vm_compute. tauto.
Qed.

(** ** Casing of the output tokens *)

Lemma Forall2_map_self {A B : Type} (R : A -> B -> Prop) (f : A -> B)
    (l : list A) :
  (forall x, In x l -> R x (f x)) -> Forall2 R l (List.map f l).
Proof.
  induction l as [|a l IH]; intros H; [constructor|].
  simpl. constructor; [apply H; now left|].
  apply IH. intros x Hx. apply H. now right.
Qed.

Lemma lower_idem (s : str) :
  is_ascii s = true -> Latin1.lower (Latin1.lower s) = Latin1.lower s.
Proof.
  induction s as [|c s IH]; [reflexivity|].
  intros H. simpl in H. apply andb_true_iff in H as [Hc Hs].
  unfold Latin1.lower in *. simpl.
  now rewrite (Latin1Facts.lower_cp_idem _ Hc), IH.
Qed.

(** C3 (as amended). On the layout A path with two parts or more, a part
    whose lower-casing is in the layout A table comes out lower-case, and
    every output token that lower-cases to an entry of the table is
    lower-case.  The layout B path does not lower-case: it turns "VAN"
    into "Van". *)
Theorem reformat_rider_name_particles_lowercase (U : Unicode)
    (HU : Conforms U) (name : option str) (init : list str) (last : str) :
  falsy name = false ->
  split (normalized U (text name)) = init ++ [last] ->
  init <> [] ->
  (exists out,
     reformat_rider_name U name = Returns out
     /\ Forall2
          (fun p t =>
             mem (u_lower U p) surname_prefixes = true -> t = u_lower U p)
          (last :: init) (split out)
     /\ (forall t, In t (split out) ->
                   mem (u_lower U t) surname_prefixes = true ->
                   u_lower U t = t))
  /\ _format_name Latin1.unicode (Some (lit "VAN Berg Marijn"))
     = Returns (Some (lit "Marijn Van Berg")).
Proof.
  intros Hn Hp Hi. split; [|vm_compute; reflexivity].
  destruct (reformat_rider_name_tokens U HU name init last Hn Hp Hi)
    as [out [Hout Hsplit]].
  exists out. split; [assumption|].
  rewrite Hsplit.
  pose proof (parts_ascii U (text name)) as Ha.
  rewrite Hp, Forall_forall in Ha.
  assert (Hin : forall p, In p (last :: init) -> is_ascii p = true).
  { intros p [<-|H]; apply Ha, in_or_app; [right; now left | now left]. }
  split.
  - apply Forall2_map_self. intros p _ Hm.
    unfold proper_case. now rewrite Hm.
  - intros t Ht Hm. apply in_map_iff in Ht as [p [<- Hpin]].
    specialize (Hin p Hpin).
    rewrite (conf_lower HU) in * by now apply proper_case_ascii.
    rewrite proper_case_eq in * by assumption.
    destruct (mem (Latin1.lower p) surname_prefixes) eqn:Hl.
    + now apply lower_idem.
    + unfold Latin1.title in Hm.
      rewrite Latin1Facts.lower_title_from in Hm by assumption.
      congruence.
Qed.

Lemma reformat_rider_name_particles_lowercase_witness :
  falsy (Some (lit "VAN DER Poel Mathieu")) = false
  /\ exists out,
       reformat_rider_name Latin1.unicode (Some (lit "VAN DER Poel Mathieu"))
       = Returns out
       /\ Forall2
            (fun p t =>
               mem (u_lower Latin1.unicode p) surname_prefixes = true ->
               t = u_lower Latin1.unicode p)
            [lit "Mathieu"; lit "VAN"; lit "DER"; lit "Poel"] (split out).
Proof.
  split; [reflexivity|].
  destruct (@reformat_rider_name_particles_lowercase Latin1.unicode
              Latin1_conforms (Some (lit "VAN DER Poel Mathieu"))
              [lit "VAN"; lit "DER"; lit "Poel"] (lit "Mathieu"))
    as [[out [H1 [H2 _]]] _];
    [reflexivity | vm_compute; reflexivity | discriminate |].
  exists out. split; assumption.
Defined.

(** C3 as stated fails on the layout B path: the particle of
    "VAN Berg Marijn" comes out as "Van", not "van". *)
Lemma format_name_particle_not_lowercased :
  _format_name Latin1.unicode (Some (lit "VAN Berg Marijn"))
  = Returns (Some (lit "Marijn Van Berg"))
  /\ is_particle Latin1.unicode (lit "VAN") = true
  /\ ~ In (lit "van") (split (lit "Marijn Van Berg")).
Proof.
  split; [vm_compute; reflexivity|]. split; [reflexivity|].
  vm_compute. intros [H|[H|[H|[]]]]; discriminate.
Qed.

(** C6 (as amended). Layout B rewrites exactly the all-upper-case tokens,
    to title case, and keeps every other token as it is; layout A
    title-cases every token that is no particle of its table, mixed-case
    ones included, so "McEwen" comes out as "Mcewen". *)
Theorem casing_repair (U : Unicode) (HU : Conforms U) (name : option str) :
  falsy name = false ->
  (forall surname first,
      name_spans U (split (text name)) = Returns (surname, first) ->
      first <> [] ->
      exists out,
        _format_name U name = Returns (Some out)
        /\ Forall2
             (fun p t => t = if u_isupper U p then u_title U p else p)
             (first ++ surname) (split out))
  /\ (forall init last,
         split (normalized U (text name)) = init ++ [last] ->
         init <> [] ->
         exists out,
           reformat_rider_name U name = Returns out
           /\ Forall2
                (fun p t =>
                   mem (u_lower U p) surname_prefixes = false ->
                   t = u_title U p)
                (last :: init) (split out))
  /\ _format_name Latin1.unicode (Some (lit "HEALY Ben"))
     = Returns (Some (lit "Ben Healy"))
  /\ _format_name Latin1.unicode (Some (lit "McEwen Robbie"))
     = Returns (Some (lit "Robbie McEwen"))
  /\ reformat_rider_name Latin1.unicode (Some (lit "McEwen Robbie"))
     = Returns (lit "Robbie Mcewen").
Proof.
  intros Hn. split; [|split; [|repeat split; vm_compute; reflexivity]].
  - intros surname first Hs Hf.
    destruct (format_name_tokens U HU name surname first Hn Hs Hf)
      as [E Hout].
    eexists. split;
      [exact (format_name_reordered U name surname first Hn Hs Hf)|].
    rewrite Hout, <- map_app. now apply Forall2_map_self.
  - intros init last Hp Hi.
    destruct (reformat_rider_name_tokens U HU name init last Hn Hp Hi)
      as [out [Hout Hsplit]].
    exists out. split; [assumption|]. rewrite Hsplit.
    apply Forall2_map_self. intros p _ Hm.
    unfold proper_case. now rewrite Hm.
Qed.

Lemma casing_repair_witness :
  falsy (Some (lit "HEALY Ben")) = false
  /\ exists out,
       _format_name Latin1.unicode (Some (lit "HEALY Ben"))
       = Returns (Some out)
       /\ Forall2
            (fun p t =>
               t = if u_isupper Latin1.unicode p
                   then u_title Latin1.unicode p else p)
            ([lit "Ben"] ++ [lit "HEALY"]) (split out).
Proof.
  split; [reflexivity|].
  apply (proj1 (@casing_repair Latin1.unicode Latin1_conforms
                  (Some (lit "HEALY Ben")) eq_refl)
           [lit "HEALY"] [lit "Ben"]);
    [vm_compute; reflexivity | discriminate].
Defined.

(** C6 as stated fails on the layout A path: "McEwen" is neither
    all upper-case nor a particle, and is rewritten to "Mcewen". *)
Lemma reformat_rider_name_rewrites_mixed_case :
  reformat_rider_name Latin1.unicode (Some (lit "McEwen Robbie"))
  = Returns (lit "Robbie Mcewen")
  /\ u_isupper Latin1.unicode (lit "McEwen") = false
  /\ mem (u_lower Latin1.unicode (lit "McEwen")) surname_prefixes = false
  /\ ~ In (lit "McEwen") (split (lit "Robbie Mcewen")).
Proof.
  split; [vm_compute; reflexivity|]. split; [reflexivity|].
  split; [reflexivity|].
  vm_compute. intros [H|[H|[]]]; discriminate.
Qed.

(** C4 (as amended). The layout B table is the particle set of the
    specification, twelve tokens; the layout A table holds ten of them,
    all but "von" and "zu".  A part is a particle for layout B when its
    lower-casing is one of the twelve, and layout A lower-cases a part
    when its lower-casing is one of the ten and title-cases it
    otherwise. *)
Theorem particle_tables (U : Unicode) (p : str) :
  (is_particle U p = true <-> In (u_lower U p) ParticleSet)
  /\ (In (u_lower U p) ParticleSet ->
      u_lower U p <> lit "von" -> u_lower U p <> lit "zu" ->
      proper_case U p = u_lower U p)
  /\ (u_lower U p = lit "von" \/ u_lower U p = lit "zu" ->
      proper_case U p = u_title U p)
  /\ (~ In (u_lower U p) ParticleSet -> proper_case U p = u_title U p)
  /\ length ParticleSet = 12%nat
  /\ length particles = 12%nat
  /\ length surname_prefixes = 10%nat
  /\ NoDup ParticleSet.
Proof.
  split; [|split; [|split; [|split]]].
  - unfold is_particle. rewrite mem_In.
    generalize (u_lower U p). intros x. vm_compute. tauto.
  - intros Hin Hv Hz. unfold proper_case.
    assert (Hm : mem (u_lower U p) surname_prefixes = true).
    { apply mem_In. revert Hin Hv Hz.
      generalize (u_lower U p). intros x Hin Hv Hz.
      vm_compute in Hin, Hv, Hz |- *. intuition congruence. }
    now rewrite Hm.
  - intros Hvz. unfold proper_case.
    assert (Hm : mem (u_lower U p) surname_prefixes = false).
    { destruct Hvz as [-> | ->]; reflexivity. }
    now rewrite Hm.
  - intros Hn. unfold proper_case.
    destruct (mem (u_lower U p) surname_prefixes) eqn:Hm; [|reflexivity].
    exfalso. apply Hn. apply mem_In in Hm. revert Hm.
    generalize (u_lower U p). intros x Hm.
    vm_compute in Hm |- *. tauto.
  - repeat split.
    unfold ParticleSet. simpl.
    repeat (constructor; [simpl; intuition discriminate|]). constructor.
Qed.

Lemma particle_tables_witness :
  In (u_lower Latin1.unicode (lit "DER")) ParticleSet
  /\ proper_case Latin1.unicode (lit "DER") = u_lower Latin1.unicode (lit "DER").
Proof.
  assert (H : In (u_lower Latin1.unicode (lit "DER")) ParticleSet)
    by (vm_compute; tauto).
  split; [exact H|].
  apply (proj1 (proj2 (particle_tables Latin1.unicode (lit "DER"))));
    [exact H | discriminate | discriminate].
Defined.

(** C4 as stated fails: "von" and "zu" are in the particle set and in
    the layout B table, yet not in the layout A table, which title-cases
    them. *)
Lemma surname_prefixes_lacks_von_zu :
  mem (lit "von") surname_prefixes = false
  /\ mem (lit "zu") surname_prefixes = false
  /\ mem (lit "von") particles = true
  /\ mem (lit "zu") particles = true
  /\ proper_case Latin1.unicode (lit "von") = lit "Von"
  /\ reformat_rider_name Latin1.unicode (Some (lit "von Trapp Georg"))
     = Returns (lit "Georg Von Trapp").
Proof. repeat split; vm_compute; reflexivity. Qed.

(** ** What [strip] leaves of a string of at most one token *)

Lemma split_nil_blank (s : str) : split s = [] -> forallb isspace s = true.
Proof.
  induction s as [|c r IH]; [reflexivity|].
  rewrite split_cons. simpl forallb.
  destruct (isspace c); [exact IH|].
  destruct r as [|d r]; [discriminate|].
  destruct (isspace d); [discriminate|].
  destruct (split (d :: r)); discriminate.
Qed.

Lemma lstrip_blank (w s : str) :
  forallb isspace w = true -> lstrip (w ++ s) = lstrip s.
Proof.
  induction w as [|c w IH]; [reflexivity|].
  simpl. intros H. apply andb_true_iff in H as [Hc Hw].
  rewrite Hc. auto.
Qed.

Lemma lstrip_token_app (t s : str) :
  is_token t = true -> lstrip (t ++ s) = t ++ s.
Proof.
  destruct t as [|c t]; [discriminate|].
  rewrite is_token_cons. intros H. apply andb_true_iff in H as [Hc _].
  apply negb_true_iff in Hc. simpl. now rewrite Hc.
Qed.

Lemma split_nonspace_nonempty (c : codepoint) (r : str) :
  isspace c = false -> split (c :: r) <> [].
Proof.
  intros Hc. rewrite split_cons, Hc.
  destruct r as [|d r]; [discriminate|].
  destruct (isspace d); [discriminate|].
  destruct (split (d :: r)); discriminate.
Qed.

(** A string of one token is that token between two blanks. *)
Lemma split_one_decomp (s t : str) :
  split s = [t] ->
  exists w1 w2,
    s = w1 ++ t ++ w2
    /\ forallb isspace w1 = true /\ forallb isspace w2 = true.
Proof.
  revert t. induction s as [|c r IH]; intros t H; [discriminate|].
  rewrite split_cons in H. destruct (isspace c) eqn:Hc.
  - destruct (IH t H) as [w1 [w2 [E [H1 H2]]]].
    exists (c :: w1), w2. simpl. rewrite Hc, H1, E. now repeat split.
  - destruct r as [|d r].
    + injection H as <-. now exists [], [].
    + destruct (isspace d) eqn:Hd.
      * injection H as <- Hr. exists [], (d :: r).
        repeat split. now apply split_nil_blank.
      * pose proof (split_nonspace_nonempty d r Hd) as Hne.
        destruct (split (d :: r)) as [|u us]; [congruence|].
        injection H as <- ->.
        destruct (IH u eq_refl) as [w1 [w2 [E [H1 H2]]]].
        destruct w1 as [|b w1].
        -- exists [], w2. simpl in *. rewrite E. now repeat split.
        -- simpl in E, H1. injection E as <- _.
           rewrite Hd in H1. discriminate.
Qed.

Lemma rev_token (t : str) : is_token t = true -> is_token (rev t) = true.
Proof.
  intros Ht. pose proof (is_token_forallb t Ht) as Hf.
  assert (Hr : forallb (fun d => negb (isspace d)) (rev t) = true).
  { apply forallb_forall. intros x Hx. apply in_rev in Hx.
    rewrite forallb_forall in Hf. auto. }
  destruct (rev t) as [|c u] eqn:E; [|exact Hr].
  apply (f_equal (@rev _)) in E. rewrite rev_involutive in E.
  subst t. discriminate.
Qed.

Lemma strip_blank_token_blank (w1 t w2 : str) :
  forallb isspace w1 = true -> is_token t = true ->
  forallb isspace w2 = true ->
  strip (w1 ++ t ++ w2) = t.
Proof.
  intros H1 Ht H2. unfold strip, rstrip.
  rewrite lstrip_blank, lstrip_token_app by assumption.
  rewrite rev_app_distr, lstrip_blank.
  - rewrite <- (app_nil_r (rev t)).
    rewrite lstrip_token_app by now apply rev_token.
    rewrite app_nil_r. apply rev_involutive.
  - apply forallb_forall. intros x Hx. apply in_rev in Hx.
    rewrite forallb_forall in H2. auto.
Qed.

Lemma strip_blank (w : str) : forallb isspace w = true -> strip w = [].
Proof.
  intros H. unfold strip, rstrip.
  rewrite <- (app_nil_r w), lstrip_blank by assumption. reflexivity.
Qed.

(** A stripped string of at most one token is single-spaced. *)
Lemma strip_single_spaced (s : str) :
  (length (split s) < 2)%nat -> single_spaced (strip s).
Proof.
  intros H. unfold single_spaced. rewrite split_strip.
  destruct (split s) as [|t [|u us]] eqn:E; [| |simpl in H; lia].
  - rewrite strip_blank; [reflexivity | now apply split_nil_blank].
  - destruct (split_one_decomp s t E) as [w1 [w2 [Es [H1 H2]]]].
    pose proof (split_tokens s) as Ht. rewrite E in Ht.
    apply Forall_inv in Ht.
    rewrite Es. now rewrite strip_blank_token_blank.
Qed.

(** C8 (as amended). An output that a normaliser builds by reordering
    (layout A from two parts or more, layout B from a non-empty
    first-name span) is its tokens joined by single spaces, without
    leading or trailing whitespace; so is what layout B returns for an
    input of at most one token.  The pass-through taken when the surname
    span holds every token returns the stripped input with its inner
    whitespace as it came. *)
Theorem reordered_output_single_spaced (U : Unicode) (HU : Conforms U)
    (name : option str) (out : str) :
  (reformat_rider_name U name = Returns out ->
   (2 <= length (split (normalized U (text name))))%nat ->
   single_spaced out)
  /\ (_format_name U name = Returns (Some out) ->
      (length (split (text name)) < 2)%nat
      \/ (exists surname first,
             name_spans U (split (text name)) = Returns (surname, first)
             /\ first <> []) ->
      single_spaced out)
  /\ (forall surname,
         falsy name = false ->
         name_spans U (split (text name)) = Returns (surname, []) ->
         _format_name U name = Returns (Some (strip (text name)))).
Proof.
  split; [|split].
  - intros Hout Hlen. destruct (falsy name) eqn:Hn.
    { unfold reformat_rider_name in Hout. rewrite Hn in Hout.
      assert (E : out = []) by congruence. now rewrite E. }
    destruct (init_last _ Hlen) as [init [last [E Hi]]].
    rewrite (reformat_rider_name_parts U name init last Hn E Hi) in Hout.
    assert (Ej : out = join (List.map (proper_case U) (last :: init)))
      by congruence.
    rewrite Ej. apply join_single_spaced.
    apply (proper_parts_tokens U HU (text name)).
    rewrite E. intros p [<-|Hp]; apply in_or_app; [right; now left | now left].
  - intros Hout Hcase. destruct (falsy name) eqn:Hn.
    { unfold _format_name in Hout. rewrite Hn in Hout. discriminate. }
    destruct Hcase as [Hlen | [surname [first [Hs Hf]]]].
    + rewrite (format_name_single U name Hn Hlen) in Hout.
      assert (E : out = strip (text name)) by congruence.
      rewrite E. now apply strip_single_spaced.
    + rewrite (format_name_reordered U name surname first Hn Hs Hf) in Hout.
      assert (E : out = join (List.map (fix_caps U) first
                              ++ List.map (fix_caps U) surname))
        by congruence.
      rewrite E. apply join_single_spaced.
      destruct (name_spans_inv _ _ _ _ Hs) as [Ep _].
      pose proof (split_tokens (text name)) as Htok. rewrite Ep in Htok.
      apply Forall_app in Htok as [Hts Htf].
      apply Forall_app. split; now apply fix_caps_tokens.
  - intros surname Hn Hs. now apply (format_name_all_surname U name surname).
Qed.

Lemma reordered_output_single_spaced_witness :
  _format_name Latin1.unicode (Some (lit "  van  den Berg   Marijn "))
  = Returns (Some (lit "Marijn van den Berg"))
  /\ single_spaced (lit "Marijn van den Berg").
Proof.
  assert (H : _format_name Latin1.unicode
                (Some (lit "  van  den Berg   Marijn "))
              = Returns (Some (lit "Marijn van den Berg")))
    by (vm_compute; reflexivity).
  split; [exact H|].
  apply (proj1 (proj2 (@reordered_output_single_spaced Latin1.unicode
                         Latin1_conforms
                         (Some (lit "  van  den Berg   Marijn "))
                         (lit "Marijn van den Berg"))) H).
  right. exists [lit "van"; lit "den"; lit "Berg"], [lit "Marijn"].
  split; [vm_compute; reflexivity | discriminate].
Defined.

(** C8 as stated fails on the pass-through it names: with the surname
    span holding every token, "van  Berg" (two spaces) is returned as it
    came. *)
Lemma format_name_pass_through_keeps_spacing :
  _format_name Latin1.unicode (Some (lit "van  Berg"))
  = Returns (Some (lit "van  Berg"))
  /\ name_spans Latin1.unicode (split (lit "van  Berg"))
     = Returns ([lit "van"; lit "Berg"], [])
  /\ ~ single_spaced (lit "van  Berg").
Proof.
  split; [vm_compute; reflexivity|]. split; [vm_compute; reflexivity|].
  unfold single_spaced. vm_compute. discriminate.
Qed.

(** ** Layout B followed by layout A *)

Lemma name_spans_no_particle (U : Unicode) (t : str) (rest : list str) :
  (forall p, In p (t :: rest) -> is_particle U p = false) ->
  name_spans U (t :: rest) = Returns ([t], rest).
Proof.
  intros H. unfold name_spans.
  rewrite (last_particle_idx_none U _ H), py_index_first. simpl.
  change 1%Z with (Z.of_nat 1). now rewrite slice_from_nat.
Qed.

(** Layout A casing of a layout B token that is no particle. *)
Lemma proper_case_fix_caps (U : Unicode) (HU : Conforms U) (p : str) :
  is_ascii p = true -> is_particle U p = false ->
  proper_case U (fix_caps U p) = Latin1.title p.
Proof.
  intros Ha Hp.
  rewrite proper_case_eq by (auto using fix_caps_ascii).
  rewrite lower_fix_caps, title_fix_caps by assumption.
  destruct (mem (Latin1.lower p) surname_prefixes) eqn:Hm; [|reflexivity].
  apply surname_prefixes_particles in Hm.
  unfold is_particle in Hp. rewrite (conf_lower HU) in Hp by assumption.
  congruence.
Qed.

(** C2 (as amended). For an ASCII name of two tokens or more, none a
    particle, the layout A path undoes the reordering of the layout B
    path: layout B moves the first token to the end, and feeding its
    output through layout A gives the tokens of the name back in their
    own order, each title-cased.  For a name in canonical form
    (single-spaced, title-cased tokens) the composite returns the name
    itself, not the layout B output. *)
Theorem B_then_A_restores_order (U : Unicode) (HU : Conforms U) (x : str) :
  is_ascii x = true ->
  (2 <= length (split x))%nat ->
  (forall p, In p (split x) -> is_particle U p = false) ->
  B_then_A U (Some x) = Returns (join (List.map Latin1.title (split x)))
  /\ (exists t rest,
         split x = t :: rest
         /\ _format_name U (Some x)
            = Returns (Some (join (List.map (fix_caps U) (rest ++ [t])))))
  /\ (single_spaced x ->
      (forall p, In p (split x) -> Latin1.title p = p) ->
      B_then_A U (Some x) = Returns x).
Proof.
  intros Ha Hlen Hnp.
  destruct (split x) as [|t rest] eqn:E; [simpl in Hlen; lia|].
  assert (Hrest : rest <> []) by (destruct rest; [simpl in Hlen; lia | discriminate]).
  assert (Hx : falsy (Some x) = false).
  { destruct x; [discriminate E | reflexivity]. }
  assert (Hs : name_spans U (split (text (Some x))) = Returns ([t], rest)).
  { simpl text. rewrite E. now apply name_spans_no_particle. }
  pose proof (format_name_reordered U (Some x) [t] rest Hx Hs Hrest) as HB.
  rewrite <- map_app in HB.
  set (outB := join (List.map (fix_caps U) (rest ++ [t]))) in *.
  pose proof (split_forallb is_ascii_cp x Ha) as Hasc. rewrite E in Hasc.
  pose proof (split_tokens x) as Htok. rewrite E in Htok.
  assert (Hasc' : Forall (fun p => is_ascii p = true) (rest ++ [t])).
  { inversion Hasc; subst. apply Forall_app. split; auto. }
  assert (Htok' : Forall (fun p => is_token p = true) (rest ++ [t])).
  { inversion Htok; subst. apply Forall_app. split; auto. }
  assert (HoutB_ascii : is_ascii outB = true).
  { apply join_forallb; [reflexivity|].
    apply Forall_map. revert Hasc'. apply Forall_impl.
    intros p. now apply fix_caps_ascii. }
  assert (HoutB_split : split outB = List.map (fix_caps U) rest ++ [fix_caps U t]).
  { unfold outB. rewrite split_join by now apply fix_caps_tokens.
    now rewrite map_app. }
  assert (HoutB_ne : falsy (Some outB) = false).
  { destruct outB; [|reflexivity].
    destruct rest; [congruence | discriminate HoutB_split]. }
  assert (HA : reformat_rider_name U (Some outB)
               = Returns (join (List.map Latin1.title (t :: rest)))).
  { rewrite (reformat_rider_name_parts U (Some outB)
               (List.map (fix_caps U) rest) (fix_caps U t)); auto.
    - f_equal. f_equal. rewrite <- (map_cons (fix_caps U)), map_map.
      apply map_ext_in. intros p Hp. apply proper_case_fix_caps; auto.
      rewrite Forall_forall in Hasc. auto.
    - simpl text. now rewrite normalized_of_ascii.
    - destruct rest; [congruence | discriminate]. }
  assert (HBA : B_then_A U (Some x)
                = Returns (join (List.map Latin1.title (t :: rest)))).
  { unfold B_then_A. rewrite HB. simpl bind. exact HA. }
  split; [exact HBA|]. split.
  - now exists t, rest.
  - intros Hsp Htitle. rewrite HBA. f_equal.
    rewrite (map_ext_in _ (fun p => p)) by exact Htitle.
    rewrite map_id. unfold single_spaced in Hsp. rewrite E in Hsp.
    now symmetry.
Qed.

Lemma B_then_A_restores_order_witness :
  is_ascii (lit "Simon Yates") = true
  /\ (2 <= length (split (lit "Simon Yates")))%nat
  /\ B_then_A Latin1.unicode (Some (lit "Simon Yates"))
     = Returns (join (List.map Latin1.title (split (lit "Simon Yates")))).
Proof.
  split; [reflexivity|]. split; [vm_compute; lia|].
  refine (proj1 (@B_then_A_restores_order Latin1.unicode Latin1_conforms
                   (lit "Simon Yates") eq_refl _ _)).
  - vm_compute; lia.
  - intros p Hp. vm_compute in Hp.
    destruct Hp as [<-|[<-|[]]]; reflexivity.
Defined.

(** C2 as stated fails: for "Simon Yates" the layout B output is
    "Yates Simon", and feeding it through layout A gives "Simon Yates",
    which is not the layout B output. *)
Lemma B_then_A_is_not_identity_on_B :
  _format_name Latin1.unicode (Some (lit "Simon Yates"))
  = Returns (Some (lit "Yates Simon"))
  /\ B_then_A Latin1.unicode (Some (lit "Simon Yates"))
     = Returns (lit "Simon Yates")
  /\ B_then_A Latin1.unicode (Some (lit "Simon Yates"))
     <> Returns (lit "Yates Simon").
Proof.
  split; [vm_compute; reflexivity|]. split; [vm_compute; reflexivity|].
  vm_compute. discriminate.
Qed.

(** * Properties of the other functions *)

(** ** More on [_format_name]: absence, trimming, token count *)

Lemma lstrip_head (s : str) :
  lstrip s = [] \/ exists c r, lstrip s = c :: r /\ isspace c = false.
Proof.
  induction s as [|c s IH]; [now left|].
  simpl. destruct (isspace c) eqn:Hc; [exact IH|].
  right. now exists c, s.
Qed.

Lemma lstrip_idem (s : str) : lstrip (lstrip s) = lstrip s.
Proof.
  destruct (lstrip_head s) as [E | [c [r [E Hc]]]]; rewrite E;
    [reflexivity|]. simpl. now rewrite Hc.
Qed.

Lemma lstrip_app_nonspace (l : str) (c : codepoint) :
  isspace c = false -> lstrip (l ++ [c]) = lstrip l ++ [c].
Proof.
  intros Hc. induction l as [|a l IH]; simpl.
  - now rewrite Hc.
  - destruct (isspace a); [exact IH | reflexivity].
Qed.

Lemma trimmed_strip_id (s : str) : trimmed s -> strip s = s.
Proof.
  intros [H1 H2]. unfold strip, rstrip.
  now rewrite H1, H2, rev_involutive.
Qed.

Lemma strip_trimmed (s : str) : trimmed (strip s).
Proof.
  unfold trimmed, strip, rstrip. split.
  - destruct (lstrip_head s) as [E | [c [r [E Hc]]]]; rewrite E;
      [reflexivity|].
    simpl rev. rewrite lstrip_app_nonspace, rev_app_distr by assumption.
    simpl. now rewrite Hc.
  - rewrite rev_involutive. apply lstrip_idem.
Qed.

Lemma join_snoc (l : list str) (t : str) :
  l <> [] -> join (l ++ [t]) = join l ++ space :: t.
Proof. intros H. now rewrite join_app by (congruence || discriminate). Qed.

Lemma rev_join (ts : list str) :
  rev (join ts) = join (List.map (@rev codepoint) (rev ts)).
Proof.
  induction ts as [|t r IH]; [reflexivity|].
  destruct r as [|u r]; [reflexivity|].
  rewrite join_cons by discriminate.
  assert (E1 : rev (t ++ space :: join (u :: r))
               = rev (join (u :: r)) ++ space :: rev t).
  { rewrite rev_app_distr.
    change (rev (space :: join (u :: r)))
      with (rev (join (u :: r)) ++ [space]).
    now rewrite <- app_assoc. }
  assert (E2 : rev (t :: u :: r) = rev (u :: r) ++ [t]) by reflexivity.
  rewrite E1, E2, map_app, IH.
  change (List.map (@rev codepoint) [t]) with [rev t].
  rewrite join_snoc; [reflexivity|].
  intros E. apply map_eq_nil in E.
  apply (f_equal (@rev _)) in E. rewrite rev_involutive in E.
  discriminate.
Qed.

Lemma join_lstrip (ts : list str) :
  Forall (fun t => is_token t = true) ts -> lstrip (join ts) = join ts.
Proof.
  intros H. destruct H as [|t r Ht Hr]; [reflexivity|].
  destruct r as [|u r].
  - simpl. rewrite <- (app_nil_r t). now rewrite lstrip_token_app.
  - rewrite join_cons by discriminate. now apply lstrip_token_app.
Qed.

Lemma join_trimmed (ts : list str) :
  Forall (fun t => is_token t = true) ts -> trimmed (join ts).
Proof.
  intros H. split; [now apply join_lstrip|].
  rewrite rev_join. apply join_lstrip.
  apply Forall_map, Forall_rev. revert H. apply Forall_impl.
  exact rev_token.
Qed.

(** The three ways [_format_name] answers a non-empty name. *)
Lemma format_name_cases (U : Unicode) (name : option str) :
  falsy name = false ->
  ((length (split (text name)) < 2)%nat
   /\ _format_name U name = Returns (Some (strip (text name))))
  \/ (exists surname,
         name_spans U (split (text name)) = Returns (surname, [])
         /\ _format_name U name = Returns (Some (strip (text name))))
  \/ (exists surname first,
         name_spans U (split (text name)) = Returns (surname, first)
         /\ first <> []
         /\ _format_name U name
            = Returns (Some (join (List.map (fix_caps U) first
                                   ++ List.map (fix_caps U) surname)))).
Proof.
  intros Hn.
  destruct (Nat.lt_ge_cases (length (split (text name))) 2) as [H|H].
  - left. split; [assumption|]. now apply format_name_single.
  - right.
    destruct (name_spans_total U (split (text name)))
      as [surname [first [Hs [E Hne]]]].
    { intros E. rewrite E in H. simpl in H. lia. }
    destruct first as [|f fs].
    + left. exists surname. split; [assumption|].
      now apply (format_name_all_surname U name surname).
    + right. exists surname, (f :: fs). split; [assumption|].
      split; [discriminate|].
      apply format_name_reordered; [assumption | assumption | discriminate].
Qed.

(** X1. [_format_name] gives [None] for an absent or empty name and for no
    other: a non-empty name always gets a string. *)
Theorem format_name_none_iff_falsy (U : Unicode) (name : option str) :
  _format_name U name = Returns None <-> falsy name = true.
Proof.
  split.
  - intros H. destruct (falsy name) eqn:Hn; [reflexivity|].
    destruct (format_name_cases U name Hn)
      as [[_ E] | [[s [_ E]] | [s [f [_ [_ E]]]]]];
      rewrite E in H; discriminate.
  - intros H. unfold _format_name. now rewrite H.
Qed.

Lemma format_name_none_iff_falsy_witness :
  falsy (@None str) = true /\ _format_name Latin1.unicode None = Returns None.
Proof.
  split; [reflexivity|].
  apply (proj2 (format_name_none_iff_falsy Latin1.unicode None)).
  reflexivity.
Defined.

(** X2. Whatever string [_format_name] returns has no leading and no
    trailing whitespace: stripping it again changes nothing. *)
Theorem format_name_output_stripped (U : Unicode) (HU : Conforms U)
    (name : option str) (out : str) :
  _format_name U name = Returns (Some out) -> strip out = out.
Proof.
  intros H. apply trimmed_strip_id.
  destruct (falsy name) eqn:Hn.
  { unfold _format_name in H. rewrite Hn in H. discriminate. }
  destruct (format_name_cases U name Hn)
    as [[_ E] | [[s [_ E]] | [s [f [Hs [_ E]]]]]];
    rewrite E in H; injection H as <-.
  - apply strip_trimmed.
  - apply strip_trimmed.
  - apply join_trimmed.
    destruct (name_spans_inv U _ _ _ Hs) as [Ep _].
    pose proof (split_tokens (text name)) as Htok. rewrite Ep in Htok.
    apply Forall_app in Htok as [Hts Htf].
    apply Forall_app. split; now apply fix_caps_tokens.
Qed.

Lemma format_name_output_stripped_witness :
  _format_name Latin1.unicode (Some (lit "  van   Berg  "))
  = Returns (Some (lit "van   Berg"))
  /\ strip (lit "van   Berg") = lit "van   Berg".
Proof.
  assert (H : _format_name Latin1.unicode (Some (lit "  van   Berg  "))
              = Returns (Some (lit "van   Berg")))
    by (vm_compute; reflexivity).
  split; [exact H|].
  exact (format_name_output_stripped Latin1.unicode Latin1_conforms
           (Some (lit "  van   Berg  ")) (lit "van   Berg") H).
Defined.

(** X3. On every branch [_format_name] keeps the number of tokens, and each
    token of its output is a token of the input, as it came or
    title-cased because all upper-case. *)
Theorem format_name_token_count (U : Unicode) (HU : Conforms U)
    (name : option str) (out : str) :
  _format_name U name = Returns (Some out) ->
  length (split out) = length (split (text name))
  /\ (forall t, In t (split out) ->
        exists p, In p (split (text name))
                  /\ (t = p \/ (u_isupper U p = true /\ t = u_title U p))).
Proof.
  intros H.
  destruct (falsy name) eqn:Hn.
  { unfold _format_name in H. rewrite Hn in H. discriminate. }
  assert (Hsame : split (strip (text name)) = split (text name)
                  -> out = strip (text name) ->
                  length (split out) = length (split (text name))
                  /\ (forall t, In t (split out) ->
                        exists p, In p (split (text name))
                          /\ (t = p \/ (u_isupper U p = true
                                        /\ t = u_title U p)))).
  { intros E ->. rewrite E. split; [reflexivity|].
    intros t Ht. exists t. auto. }
  destruct (format_name_cases U name Hn)
    as [[_ E] | [[s [_ E]] | [s [f [Hs [Hf E]]]]]];
    rewrite E in H; injection H as <-.
  - apply Hsame; [apply split_strip | reflexivity].
  - apply Hsame; [apply split_strip | reflexivity].
  - destruct (format_name_tokens U HU name s f Hn Hs Hf) as [Ep Eo].
    rewrite Eo, Ep. split.
    + rewrite !length_app, !length_map. lia.
    + intros t Ht. rewrite <- map_app in Ht.
      apply in_map_iff in Ht as [p [<- Hp]].
      exists p. split.
      * apply in_app_or in Hp. apply in_or_app. tauto.
      * unfold fix_caps. destruct (u_isupper U p); auto.
Qed.

Lemma format_name_token_count_witness :
  _format_name Latin1.unicode (Some (lit "HEALY Ben"))
  = Returns (Some (lit "Ben Healy"))
  /\ length (split (lit "Ben Healy"))
     = length (split (text (Some (lit "HEALY Ben")))).
Proof.
  assert (H : _format_name Latin1.unicode (Some (lit "HEALY Ben"))
              = Returns (Some (lit "Ben Healy")))
    by (vm_compute; reflexivity).
  split; [exact H|].
  exact (proj1 (format_name_token_count Latin1.unicode Latin1_conforms
                  (Some (lit "HEALY Ben")) (lit "Ben Healy") H)).
Defined.

(** X4. On a two-token ASCII name whose tokens are title-cased and no
    particles, the two normalisers return the same string: the two
    tokens swapped and joined by one space. *)
Theorem layouts_agree_on_two_tokens (U : Unicode) (HU : Conforms U)
    (x t1 t2 : str) :
  is_ascii x = true ->
  split x = [t1; t2] ->
  is_particle U t1 = false -> is_particle U t2 = false ->
  Latin1.title t1 = t1 -> Latin1.title t2 = t2 ->
  reformat_rider_name U (Some x) = Returns (t2 ++ space :: t1)
  /\ _format_name U (Some x) = Returns (Some (t2 ++ space :: t1)).
Proof.
  intros Ha E Hp1 Hp2 Ht1 Ht2.
  assert (Hx : falsy (Some x) = false)
    by (destruct x; [discriminate E | reflexivity]).
  pose proof (split_forallb is_ascii_cp x Ha) as Hasc. rewrite E in Hasc.
  assert (Ha1 : is_ascii t1 = true) by (inversion Hasc; assumption).
  assert (Ha2 : is_ascii t2 = true).
  { inversion Hasc as [|? ? _ H2]; subst. now inversion H2. }
  assert (Hfix : forall t, is_ascii t = true -> Latin1.title t = t ->
                           fix_caps U t = t).
  { intros t Hat Ht. unfold fix_caps. destruct (u_isupper U t); auto.
    now rewrite (conf_title HU). }
  assert (Hprop : forall t, is_ascii t = true -> Latin1.title t = t ->
                            is_particle U t = false -> proper_case U t = t).
  { intros t Hat Ht Hp. rewrite (proper_case_eq U HU) by assumption.
    destruct (mem (Latin1.lower t) surname_prefixes) eqn:Hm; [|assumption].
    apply surname_prefixes_particles in Hm.
    unfold is_particle in Hp. rewrite (conf_lower HU) in Hp by assumption.
    congruence. }
  split.
  - rewrite (reformat_rider_name_parts U (Some x) [t1] t2 Hx);
      [| simpl text; now rewrite (normalized_of_ascii U HU) | discriminate].
    simpl. now rewrite !Hprop.
  - rewrite (format_name_reordered U (Some x) [t1] [t2] Hx);
      [| simpl text; rewrite E; apply name_spans_no_particle;
         intros p [<-|[<-|[]]]; assumption
       | discriminate].
    simpl. now rewrite !Hfix.
Qed.

Lemma layouts_agree_on_two_tokens_witness :
  reformat_rider_name Latin1.unicode (Some (lit "Yates Simon"))
  = Returns (lit "Simon" ++ space :: lit "Yates")
  /\ _format_name Latin1.unicode (Some (lit "Yates Simon"))
     = Returns (Some (lit "Simon" ++ space :: lit "Yates")).
Proof.
  apply (layouts_agree_on_two_tokens Latin1.unicode Latin1_conforms
           (lit "Yates Simon") (lit "Yates") (lit "Simon"));
    reflexivity.
Defined.

(** ** Difficulty labels *)

(** X5. The difficulty label never gets easier as the profile score grows. *)
Theorem calculate_difficulty_monotone (a b : Z) :
  (a <= b)%Z ->
  (difficulty_rank (_calculate_difficulty a)
   <= difficulty_rank (_calculate_difficulty b))%nat.
Proof.
  intros H. unfold _calculate_difficulty.
  repeat match goal with
         | |- context [(?k <=? ?x)%Z] => destruct (Z.leb_spec k x)
         end; try lia; vm_compute; lia.
Qed.

Lemma calculate_difficulty_monotone_witness :
  (49 <= 150)%Z
  /\ (difficulty_rank (_calculate_difficulty 49)
      <= difficulty_rank (_calculate_difficulty 150))%nat.
Proof.
  split; [lia|]. apply (calculate_difficulty_monotone 49 150). lia.
Defined.

(** X6. Each label stands for one band of scores: below 50, 50 to 99,
    100 to 149, 150 and above. *)
Theorem calculate_difficulty_bands (score : Z) :
  (_calculate_difficulty score = lit "Easy" <-> (score < 50)%Z)
  /\ (_calculate_difficulty score = lit "Medium"
      <-> (50 <= score < 100)%Z)
  /\ (_calculate_difficulty score = lit "Hard"
      <-> (100 <= score < 150)%Z)
  /\ (_calculate_difficulty score = lit "Very Hard" <-> (150 <= score)%Z).
Proof.
  unfold _calculate_difficulty.
  repeat match goal with
         | |- context [(?k <=? ?x)%Z] => destruct (Z.leb_spec k x)
         end; try lia;
    repeat split; intros; try lia; try reflexivity; try discriminate.
Qed.

Lemma calculate_difficulty_bands_witness :
  (50 <= 75 < 100)%Z /\ _calculate_difficulty 75 = lit "Medium".
Proof.
  split; [lia|].
  apply (proj2 (proj1 (proj2 (calculate_difficulty_bands 75)))). lia.
Defined.

(** ** DNF and DNS riders *)

Lemma opt_eqb_eq (v : option str) (s : str) :
  opt_eqb v s = true <-> v = Some s.
Proof.
  destruct v as [x|]; simpl.
  - rewrite Latin1Facts.str_eqb_eq. split; congruence.
  - split; discriminate.
Qed.

Lemma dns_not_dropped_out (result : result_row) :
  has_status result (lit "DNS") = true ->
  has_status result (lit "DNF") || has_status result (lit "OTL")
  || has_status result (lit "DSQ") = false.
Proof.
  unfold has_status. intros H. apply opt_eqb_eq in H. rewrite H.
  reflexivity.
Qed.

Lemma dnf_dns_fold (rows : list result_row) :
  forall acc,
    fold_left dnf_dns_step rows acc
    = {| dnf := dnf acc ++ List.map row_name (filter dropped_out rows);
         dns := dns acc ++ List.map row_name (filter did_not_start rows) |}.
Proof.
  induction rows as [|r rows IH]; intros acc.
  - simpl. rewrite !app_nil_r. now destruct acc.
  - simpl fold_left. rewrite IH. clear IH.
    unfold dnf_dns_step, did_not_start, dropped_out, row_name, has_status.
    simpl filter.
    destruct (falsy (get_or (row_rider_name r) [])); simpl; [reflexivity|].
    destruct (opt_eqb (get_or (row_status r) []) (lit "DNS")) eqn:Hs.
    + pose proof (dns_not_dropped_out r Hs) as Hn.
      unfold has_status in Hn. rewrite Hn. simpl.
      now rewrite <- app_assoc.
    + destruct (opt_eqb (get_or (row_status r) []) (lit "DNF")
                || opt_eqb (get_or (row_status r) []) (lit "OTL")
                || opt_eqb (get_or (row_status r) []) (lit "DSQ"));
        simpl; [now rewrite <- app_assoc | reflexivity].
Qed.

Lemma get_dnf_dns_lists_aux (rows : list result_row) :
  dnf (_get_dnf_dns (Val rows))
  = List.map row_name (filter dropped_out rows)
  /\ dns (_get_dnf_dns (Val rows))
     = List.map row_name (filter did_not_start rows).
Proof.
  unfold _get_dnf_dns, get_or. rewrite dnf_dns_fold. now split.
Qed.

(** X7. [_get_dnf_dns] lists, in the order of the results, the names of the
    rows with a non-empty name and status DNS under ['dns'], and those
    with status DNF, OTL or DSQ under ['dnf']; rows without a name are
    passed over, and a results value of [None] gives two empty lists. *)
Theorem get_dnf_dns_lists (rows : list result_row) :
  dns (_get_dnf_dns (Val rows))
  = List.map row_name (filter did_not_start rows)
  /\ dnf (_get_dnf_dns (Val rows))
     = List.map row_name (filter dropped_out rows)
  /\ _get_dnf_dns Null = {| dnf := []; dns := [] |}
  /\ _get_dnf_dns Missing = {| dnf := []; dns := [] |}.
Proof.
  destruct (get_dnf_dns_lists_aux rows) as [E1 E2].
  repeat split; assumption.
Qed.

Lemma filter_both_length {A : Type} (p q : A -> bool) (l : list A) :
  (forall x, p x = true -> q x = false) ->
  (length (filter p l) + length (filter q l) <= length l)%nat.
Proof.
  intros H. induction l as [|a l IH]; [simpl; lia|].
  simpl. destruct (p a) eqn:Hp.
  - rewrite (H a Hp). simpl. lia.
  - destruct (q a); simpl; lia.
Qed.

(** X8. No listed name is empty, no name is listed for a row under both
    keys, and the two lists together are no longer than the results. *)
Theorem get_dnf_dns_names (results : entry (list result_row)) :
  (forall name,
      In name (dnf (_get_dnf_dns results))
      \/ In name (dns (_get_dnf_dns results)) ->
      name <> [])
  /\ (forall rows, results = Val rows ->
        (length (dnf (_get_dnf_dns results))
         + length (dns (_get_dnf_dns results)) <= length rows)%nat
        /\ forall r, In r rows -> did_not_start r && dropped_out r = false).
Proof.
  assert (Hname : forall (p : result_row -> bool) rows name,
             (forall r, p r = true ->
                        falsy (get_or (row_rider_name r) []) = false) ->
             In name (List.map row_name (filter p rows)) -> name <> []).
  { intros p rows name Hp Hin.
    apply in_map_iff in Hin as [r [<- Hr]]. apply filter_In in Hr as [_ Hr].
    apply Hp in Hr. unfold row_name.
    destruct (get_or (row_rider_name r) []) as [[|c s]|];
      simpl in *; congruence. }
  assert (Hexcl : forall r, did_not_start r = true -> dropped_out r = false).
  { intros r H. unfold did_not_start in H. unfold dropped_out.
    apply andb_true_iff in H as [_ H].
    rewrite (dns_not_dropped_out r H). apply andb_false_r. }
  split.
  - intros name Hin. destruct results as [| |rows].
    + simpl in Hin. tauto.
    + simpl in Hin. tauto.
    + destruct (get_dnf_dns_lists_aux rows) as [E1 E2].
      rewrite E1, E2 in Hin. destruct Hin as [Hin|Hin].
      * apply (Hname dropped_out rows name); [|assumption].
        intros r H. unfold dropped_out in H.
        apply andb_true_iff in H as [H _]. now apply negb_true_iff.
      * apply (Hname did_not_start rows name); [|assumption].
        intros r H. unfold did_not_start in H.
        apply andb_true_iff in H as [H _]. now apply negb_true_iff.
  - intros rows ->. destruct (get_dnf_dns_lists_aux rows) as [E1 E2].
    rewrite E1, E2, !length_map. split.
    + rewrite Nat.add_comm. now apply filter_both_length.
    + intros r _. destruct (did_not_start r) eqn:H; [|reflexivity].
      now rewrite (Hexcl r H).
Qed.

(** ** The formatted fields of the stage data *)

Lemma format_name_total (U : Unicode) (name : option str) :
  exists r, _format_name U name = Returns r.
Proof.
  destruct (falsy name) eqn:Hn.
  - exists None. unfold _format_name. now rewrite Hn.
  - destruct (format_name_cases U name Hn)
      as [[_ E] | [[s [_ E]] | [s [f [_ [_ E]]]]]];
      rewrite E; now eexists.
Qed.

Lemma format_name_some (U : Unicode) (name : option str) :
  falsy name = false -> exists out, _format_name U name = Returns (Some out).
Proof.
  intros Hn.
  destruct (format_name_cases U name Hn)
    as [[_ E] | [[s [_ E]] | [s [f [_ [_ E]]]]]];
    rewrite E; now eexists.
Qed.

Lemma format_names_some (U : Unicode) (names : list str) :
  Forall (fun name => name <> []) names ->
  exists outs,
    format_names U names = Returns (List.map Some outs)
    /\ length outs = length names.
Proof.
  induction 1 as [|name rest Hname Hrest [outs [E L]]].
  - now exists [].
  - destruct (format_name_some U (Some name)) as [out Eo].
    { destruct name; [congruence | reflexivity]. }
    exists (out :: outs). cbn [format_names]. unfold str in *.
    rewrite Eo, E. simpl.
    split; [reflexivity | now rewrite L].
Qed.

(** X9. The ["dnf_riders"] and ["dns_riders"] of the stage data: formatting
    the names that [_get_dnf_dns] lists never raises, keeps their number
    and gives a string, never [None], for each. *)
Theorem dnf_dns_riders_formatted (U : Unicode)
    (results : entry (list result_row)) :
  (exists outs,
      format_names U (dnf (_get_dnf_dns results))
      = Returns (List.map Some outs)
      /\ length outs = length (dnf (_get_dnf_dns results)))
  /\ (exists outs,
         format_names U (dns (_get_dnf_dns results))
         = Returns (List.map Some outs)
         /\ length outs = length (dns (_get_dnf_dns results))).
Proof.
  assert (H : forall name,
             In name (dnf (_get_dnf_dns results))
             \/ In name (dns (_get_dnf_dns results)) -> name <> []).
  { intros name Hin. destruct results as [| |rows]; try (simpl in Hin; tauto).
    destruct (get_dnf_dns_lists_aux rows) as [E1 E2].
    rewrite E1, E2 in Hin.
    assert (G : forall (p : result_row -> bool),
               (forall r, p r = true ->
                          falsy (get_or (row_rider_name r) []) = false) ->
               In name (List.map row_name (filter p rows)) -> name <> []).
    { intros p Hp Hi.
      apply in_map_iff in Hi as [r [<- Hr]].
      apply filter_In in Hr as [_ Hr]. apply Hp in Hr. unfold row_name.
      destruct (get_or (row_rider_name r) []) as [[|c s]|];
        simpl in *; congruence. }
    destruct Hin as [Hin|Hin]; revert Hin; apply G; intros r Hr.
    - unfold dropped_out in Hr. apply andb_true_iff in Hr as [Hr _].
      now apply negb_true_iff.
    - unfold did_not_start in Hr. apply andb_true_iff in Hr as [Hr _].
      now apply negb_true_iff. }
  split; apply format_names_some, Forall_forall; intros name Hin;
    apply H; auto.
Qed.

(** *** Top 20 *)

Lemma py_or_default (a : option str) :
  exists g, py_or a (Some (lit "0:00")) = Some g /\ g <> [].
Proof.
  unfold py_or. destruct a as [[|c s]|]; simpl.
  - now eexists.
  - exists (c :: s). split; [reflexivity | discriminate].
  - now eexists.
Qed.

Lemma format_rows_spec (U : Unicode) (rows : list result_row) :
  forall k,
  exists l,
    format_rows U (enumerate_from k rows) = Returns l
    /\ length l = length rows
    /\ (forall f, In f l -> exists g, f_time_gap f = Some g /\ g <> [])
    /\ (forall i row,
          nth_error rows i = Some row ->
          exists f,
            nth_error l i = Some f
            /\ f_position f = get_or (row_rank row) (k + Z.of_nat i)%Z
            /\ _format_name U (get_or (row_rider_name row) [])
               = Returns (f_rider_name f)).
Proof.
  induction rows as [|r rows IH]; intros k.
  - exists []. repeat split; try contradiction.
    intros [|i] row H; discriminate.
  - destruct (IH (k + 1)%Z) as [l [E [L [G P]]]].
    destruct (format_name_total U (get_or (row_rider_name r) [])) as [n En].
    eexists. cbn [format_rows enumerate_from]. rewrite En, E.
    cbn [bind]. split; [reflexivity|].
    split; [simpl length; now rewrite L|]. split.
    + intros f [<-|Hf]; [apply py_or_default | now apply G].
    + intros [|i] row H.
      * injection H as <-. eexists. split; [reflexivity|]. simpl.
        rewrite Z.add_0_r. now split.
      * simpl in H. destruct (P i row H) as [f [Hf [Hp Hn]]].
        exists f. split; [exact Hf|]. split; [|exact Hn].
        rewrite Hp. f_equal. lia.
Qed.


(** X11. The entry at index [i] of the top 20 comes from the result at index
    [i]: its name is that row's name formatted, and its position is the
    row's rank, or [i + 1] when the row has no rank key. *)
Theorem format_top_20_positions (U : Unicode) (results : list result_row)
    (i : nat) (row : result_row) :
  (i < 20)%nat ->
  nth_error results i = Some row ->
  exists l f,
    _format_top_20 U results = Returns l
    /\ nth_error l i = Some f
    /\ f_position f = get_or (row_rank row) (Z.of_nat i + 1)%Z
    /\ _format_name U (get_or (row_rider_name row) [])
       = Returns (f_rider_name f).
Proof.
  intros Hi Hrow. unfold _format_top_20. change 20%Z with (Z.of_nat 20).
  rewrite slice_to_nat.
  destruct (format_rows_spec U (firstn 20 results) 1) as [l [E [_ [_ P]]]].
  destruct (P i row) as [f [Hf [Hp Hn]]].
  { now rewrite nth_error_firstn, (proj2 (Nat.ltb_lt i 20) Hi). }
  exists l, f. repeat split; try assumption.
  rewrite Hp. f_equal. lia.
Qed.

Lemma format_top_20_positions_witness :
  exists l f,
    _format_top_20 Latin1.unicode
      [ {| row_rider_name := Val (lit "Yates Simon"); row_rank := Missing;
           row_time := Null; row_gap := Missing;
           row_status := Val (lit "DF") |} ] = Returns l
    /\ nth_error l 0 = Some f
    /\ f_position f = get_or (@Missing Z) (Z.of_nat 0 + 1)%Z
    /\ _format_name Latin1.unicode
         (get_or (Val (lit "Yates Simon")) []) = Returns (f_rider_name f).
Proof.
  apply (format_top_20_positions Latin1.unicode
           [ {| row_rider_name := Val (lit "Yates Simon");
                row_rank := Missing; row_time := Null; row_gap := Missing;
                row_status := Val (lit "DF") |} ] 0%nat
           {| row_rider_name := Val (lit "Yates Simon");
              row_rank := Missing; row_time := Null; row_gap := Missing;
              row_status := Val (lit "DF") |});
    [lia | reflexivity].
Defined.

(** *** Jerseys and combativity *)

(** X12. A jersey of the stage data never raises.  It is [None] exactly when
    the classification is missing, [None] or empty, or its first row has
    no rider name or an empty one; otherwise it is the formatted name of
    the first row. *)
Theorem jersey_of_leader (U : Unicode)
    (classification : entry (list result_row)) :
  (exists r, jersey U classification = Returns r)
  /\ (jersey U classification = Returns None
      <-> forall row rest,
            get_or classification [] = Some (row :: rest) ->
            falsy (get (row_rider_name row)) = true)
  /\ (forall row rest,
         get_or classification [] = Some (row :: rest) ->
         jersey U classification = _format_name U (get (row_rider_name row))).
Proof.
  assert (Hrow : forall row rest,
             get_or classification [] = Some (row :: rest) ->
             jersey U classification
             = _format_name U (get (row_rider_name row))).
  { intros row rest E. unfold jersey, _get_jersey_leader.
    rewrite E, py_index_first. reflexivity. }
  assert (Hnone : forall name,
             _format_name U name = Returns None <-> falsy name = true).
  { intros name. split.
    - intros H. destruct (falsy name) eqn:Hn; [reflexivity|].
      destruct (format_name_some U name Hn) as [out E]. congruence.
    - intros H. unfold _format_name. now rewrite H. }
  destruct (get_or classification []) as [[|row rest]|] eqn:E.
  - assert (J : jersey U classification = Returns None).
    { unfold jersey, _get_jersey_leader. now rewrite E. }
    rewrite J. split; [now eexists|]. split; [|intros ? ? [=]].
    split; [intros _ ? ? [=] | now intros _].
  - specialize (Hrow row rest eq_refl).
    split; [rewrite Hrow; apply format_name_total|]. split.
    + rewrite Hrow, Hnone. split.
      * intros H ? ? [= <- <-]. exact H.
      * intros H. now apply (H row rest).
    + intros ? ? [= <- <-]. exact Hrow.
  - assert (J : jersey U classification = Returns None).
    { unfold jersey, _get_jersey_leader. now rewrite E. }
    rewrite J. split; [now eexists|]. split; [|intros ? ? [=]].
    split; [intros _ ? ? [=] | now intros _].
Qed.

Lemma jersey_of_leader_witness :
  jersey Latin1.unicode (Val []) = Returns None.
Proof.
  apply (proj2 (proj1 (proj2 (jersey_of_leader Latin1.unicode (Val []))))).
  intros row rest H. discriminate H.
Defined.

Lemma lit_inj (a b : string) : lit a = lit b -> a = b.
Proof.
  unfold lit. intros H.
  rewrite <- (string_of_list_ascii_of_string a).
  rewrite <- (string_of_list_ascii_of_string b). f_equal.
  revert H. generalize (list_ascii_of_string a) (list_ascii_of_string b).
  induction l as [|x l IH]; intros [|y l'] H; try discriminate;
    [reflexivity|].
  simpl in H. injection H as Hxy Hl. f_equal; [|now apply IH].
  rewrite <- (ascii_N_embedding x), <- (ascii_N_embedding y).
  now rewrite Hxy.
Qed.

Lemma py_str_inj (a b : Z) : py_str a = py_str b -> a = b.
Proof.
  unfold py_str. intros H. apply lit_inj in H.
  apply DecimalZ.to_int_inj.
  assert (G : forall z, DecimalString.NilZero.int_of_string
                          (DecimalString.NilZero.string_of_int (Z.to_int z))
                        = Some (Z.to_int z)).
  { intros z. apply DecimalString.NilZero.isi.
    - destruct z; simpl; try discriminate.
      intros [= E]. now apply DecimalPos.Unsigned.to_uint_nonnil in E.
    - destruct z; simpl; try discriminate.
      intros [= E]. now apply DecimalPos.Unsigned.to_uint_nonnil in E. }
  pose proof (G a) as Ga. rewrite H, G in Ga. congruence.
Qed.

Lemma stage_label_inj_aux (a b : Z) :
  stage_label a = stage_label b -> a = b.
Proof.
  unfold stage_label. intros H. apply app_inv_head in H.
  now apply py_str_inj.
Qed.

(** X13. Stage labels are exact: two stage numbers have the same label
    [f"Stage {n}"] only when they are equal, so "Stage 1" is not the
    label of stage 10. *)
Theorem stage_label_inj (a b : Z) : stage_label a = stage_label b -> a = b.
Proof. apply stage_label_inj_aux. Qed.

Lemma stage_label_inj_witness :
  stage_label 7 = stage_label 7 /\ 7%Z = 7%Z.
Proof.
  split; [reflexivity|]. apply (stage_label_inj 7 7). reflexivity.
Defined.

(** X14. The rider that [_get_combativity] returns is the rider of the first
    entry whose stage name is the label of the stage asked for, and that
    entry is for no other stage number. *)
Theorem get_combativity_first_match (stage_number : Z)
    (combative_data : list combative_entry) (rider : str) :
  _get_combativity stage_number combative_data = Some rider ->
  exists before e after,
    combative_data = before ++ e :: after
    /\ get (ce_stage_name e) = Some (stage_label stage_number)
    /\ get (ce_rider_name e) = Some rider
    /\ (forall e', In e' before ->
                   get (ce_stage_name e') <> Some (stage_label stage_number))
    /\ (forall n, get (ce_stage_name e) = Some (stage_label n) ->
                  n = stage_number).
Proof.
  unfold _get_combativity. intros H.
  induction combative_data as [|e rest IH]; [discriminate|].
  simpl in H.
  destruct (opt_eqb (get (ce_stage_name e)) (stage_label stage_number))
    eqn:He.
  - apply opt_eqb_eq in He. exists [], e, rest.
    repeat split; try assumption; try contradiction.
    intros n Hn. rewrite He in Hn.
    assert (Hl : stage_label n = stage_label stage_number) by congruence.
    now apply stage_label_inj_aux.
  - destruct (IH H) as [before [e0 [after [E [H1 [H2 [H3 H4]]]]]]].
    exists (e :: before), e0, after. rewrite E.
    repeat split; try assumption.
    intros e' [<-|Hin]; [|now apply H3].
    intros C. apply opt_eqb_eq in C. congruence.
Qed.

Lemma get_combativity_first_match_witness :
  _get_combativity 2
    [ {| ce_stage_name := Val (lit "Stage 1");
         ce_rider_name := Val (lit "HEALY Ben") |};
      {| ce_stage_name := Val (lit "Stage 2");
         ce_rider_name := Val (lit "ABRAHAMSEN Jonas") |} ]
  = Some (lit "ABRAHAMSEN Jonas")
  /\ exists before e after,
       [ {| ce_stage_name := Val (lit "Stage 1");
            ce_rider_name := Val (lit "HEALY Ben") |};
         {| ce_stage_name := Val (lit "Stage 2");
            ce_rider_name := Val (lit "ABRAHAMSEN Jonas") |} ]
       = before ++ e :: after
       /\ get (ce_stage_name e) = Some (stage_label 2)
       /\ get (ce_rider_name e) = Some (lit "ABRAHAMSEN Jonas").
Proof.
  split; [reflexivity|].
  destruct (get_combativity_first_match 2
              [ {| ce_stage_name := Val (lit "Stage 1");
                   ce_rider_name := Val (lit "HEALY Ben") |};
                {| ce_stage_name := Val (lit "Stage 2");
                   ce_rider_name := Val (lit "ABRAHAMSEN Jonas") |} ]
              (lit "ABRAHAMSEN Jonas") eq_refl)
    as [before [e [after [E [H1 [H2 _]]]]]].
  exists before, e, after. repeat split; assumption.
Defined.

(** ** Time gaps *)

Lemma span_class (p : codepoint -> bool) (s : str) :
  forallb p (fst (span p s)) = true.
Proof.
  induction s as [|c r IH]; [reflexivity|].
  simpl. destruct (p c) eqn:Hc; [|reflexivity].
  destruct (span p r) as [a b]. simpl in *. now rewrite Hc.
Qed.

Lemma span_exact (p : codepoint -> bool) (a b : str) :
  forallb p a = true ->
  match b with [] => True | c :: _ => p c = false end ->
  span p (a ++ b) = (a, b).
Proof.
  intros Ha Hb. induction a as [|c a IH]; simpl.
  - destruct b as [|d b]; [reflexivity|]. simpl. now rewrite Hb.
  - simpl in Ha. apply andb_true_iff in Ha as [Hc Ha].
    now rewrite Hc, IH.
Qed.

Lemma search_found {A : Type} (m : str -> option A) (text : str) (g : A) :
  search m text = Some g ->
  exists before s, text = before ++ s /\ m s = Some g.
Proof.
  induction text as [|c r IH]; simpl.
  - destruct (m []) eqn:E; [|discriminate].
    intros [= <-]. now exists [], [].
  - destruct (m (c :: r)) eqn:E.
    + intros [= <-]. now exists [], (c :: r).
    + intros H. destruct (IH H) as [before [s [-> Hs]]].
      now exists (c :: before), s.
Qed.

Lemma search_here {A : Type} (m : str -> option A) (s : str) (g : A) :
  m s = Some g -> search m s = Some g.
Proof. intros H. destruct s; simpl; now rewrite H. Qed.

Lemma search_next {A : Type} (m : str -> option A) (c : codepoint)
    (r : str) :
  m (c :: r) = None -> search m (c :: r) = search m r.
Proof. intros H. simpl. now rewrite H. Qed.

(** A pattern that starts with '+' matches nowhere in a text without
    '+', and the search passes over such a prefix. *)
Lemma search_skip {A : Type} (m : str -> option A) (before s : str) :
  (forall c r, c <> plus_sign -> m (c :: r) = None) ->
  ~ In plus_sign before ->
  search m (before ++ s) = search m s.
Proof.
  intros Hm. induction before as [|c r IH]; intros Hno; [reflexivity|].
  simpl. rewrite Hm.
  - apply IH. intros H. apply Hno. now right.
  - intros ->. apply Hno. now left.
Qed.

Lemma search_no_plus {A : Type} (m : str -> option A) (text : str) :
  (forall c r, c <> plus_sign -> m (c :: r) = None) ->
  m [] = None ->
  ~ In plus_sign text ->
  search m text = None.
Proof.
  intros Hm Hnil Hno.
  rewrite <- (app_nil_r text), search_skip by assumption.
  simpl. now rewrite Hnil.
Qed.

Lemma match_minutes_plus (D : Digits) (c : codepoint) (r : str) :
  c <> plus_sign -> match_minutes D (c :: r) = None.
Proof.
  intros H. unfold match_minutes.
  destruct (N.eqb_spec c plus_sign); [contradiction | reflexivity].
Qed.

Lemma match_seconds_plus (D : Digits) (c : codepoint) (r : str) :
  c <> plus_sign -> match_seconds D (c :: r) = None.
Proof.
  intros H. unfold match_seconds.
  destruct (N.eqb_spec c plus_sign); [contradiction | reflexivity].
Qed.

(** What group 1 of the first pattern looks like. *)
Lemma match_minutes_shape (D : Digits) (s g : str) :
  match_minutes D s = Some g ->
  exists m sec,
    g = m ++ colon :: sec /\ m <> [] /\ sec <> []
    /\ forallb (isdecimal D) m = true /\ forallb (isdecimal D) sec = true.
Proof.
  unfold match_minutes. destruct s as [|c r]; [discriminate|].
  destruct (c =? plus_sign)%N; [|discriminate].
  pose proof (span_class (isdecimal D) (snd (span isspace r))) as Hm.
  destruct (span (isdecimal D) (snd (span isspace r))) as [m r2].
  destruct m as [|d m]; [discriminate|].
  destruct r2 as [|c2 r3]; [discriminate|].
  destruct (c2 =? colon)%N; [|discriminate].
  pose proof (span_class (isdecimal D) r3) as Hs.
  destruct (fst (span (isdecimal D) r3)) as [|e sec]; [discriminate|].
  intros [= <-]. exists (d :: m), (e :: sec).
  repeat split; try discriminate; assumption.
Qed.

Lemma string_of_uint_digits (d : Decimal.uint) :
  forallb is_ascii_digit (lit (DecimalString.NilEmpty.string_of_uint d)) = true.
Proof. induction d; simpl; auto. Qed.

Lemma py_str_of_N (n : N) :
  py_str (Z.of_N n) <> []
  /\ forallb is_ascii_digit (py_str (Z.of_N n)) = true.
Proof.
  unfold py_str. destruct n as [|p]; simpl.
  - split; [discriminate | reflexivity].
  - pose proof (DecimalPos.Unsigned.to_uint_nonnil p) as Hn.
    destruct (Pos.to_uint p) eqn:E; try congruence;
      (split; [discriminate|]);
      rewrite <- E at 1; unfold DecimalString.NilZero.string_of_uint;
      rewrite E; apply (string_of_uint_digits).
Qed.

Section TimeGapFacts.

Variable D : Digits.
Hypothesis HD : DigitsOK D.

Lemma ascii_digit_decimal (c : codepoint) :
  is_ascii_digit c = true ->
  isdecimal D c = true /\ digit_value D c = (c - 48)%N.
Proof.
  unfold is_ascii_digit. intros H. apply andb_true_iff in H as [H1 H2].
  apply N.leb_le in H1, H2. apply (ok_ascii D HD). lia.
Qed.

Lemma ascii_digits_decimal (s : str) :
  forallb is_ascii_digit s = true -> forallb (isdecimal D) s = true.
Proof.
  intros H. rewrite forallb_forall in H. apply forallb_forall.
  intros c Hc. now apply ascii_digit_decimal, H.
Qed.

Lemma format_02d_digits (n : N) :
  format_02d n <> [] /\ forallb (isdecimal D) (format_02d n) = true.
Proof.
  destruct (py_str_of_N n) as [Hne Hd]. unfold format_02d.
  destruct (_ <? _)%nat.
  - split; [discriminate|]. apply ascii_digits_decimal.
    simpl. exact Hd.
  - split; [assumption | now apply ascii_digits_decimal].
Qed.

(** X15. What [parse_time_gap] returns always reads minutes, a colon, seconds:
    two non-empty runs of decimal digits around one ':', after a '+'
    unless the rider is the winner, whose gap is "0:00" whatever the
    text. *)
Theorem parse_time_gap_shape (text : str) (is_winner : bool) :
  exists m sec,
    parse_time_gap D text is_winner
    = (if is_winner then [] else [plus_sign]) ++ m ++ colon :: sec
    /\ m <> [] /\ sec <> []
    /\ forallb (isdecimal D) m = true
    /\ forallb (isdecimal D) sec = true
    /\ (is_winner = true -> parse_time_gap D text is_winner = lit "0:00").
Proof.
  assert (Hzero : forallb (isdecimal D) (lit "0") = true
                  /\ forallb (isdecimal D) (lit "00") = true).
  { split; apply ascii_digits_decimal; reflexivity. }
  destruct Hzero as [H0 H00].
  unfold parse_time_gap. destruct is_winner.
  - exists (lit "0"), (lit "00"). repeat split; try discriminate; assumption.
  - destruct (search (match_minutes D) text) as [g|] eqn:E1.
    + apply search_found in E1 as [before [s [_ Hs]]].
      destruct (match_minutes_shape D s g Hs) as [m [sec [-> [? [? [? ?]]]]]].
      exists m, sec. repeat split; try assumption. discriminate.
    + destruct (search (match_seconds D) text) as [g|] eqn:E2.
      * destruct (format_02d_digits (py_int D g)) as [Hne Hd].
        exists (lit "0"), (format_02d (py_int D g)).
        repeat split; try assumption; discriminate.
      * exists (lit "0"), (lit "00").
        repeat split; try discriminate; assumption.
Qed.

(** X16. A text without '+' gives the gap "+0:00" to a rider who is not the
    winner. *)
Theorem parse_time_gap_no_plus (text : str) :
  ~ In plus_sign text -> parse_time_gap D text false = lit "+0:00".
Proof.
  intros H. unfold parse_time_gap.
  rewrite (search_no_plus (match_minutes D) text
             (match_minutes_plus D) eq_refl H).
  now rewrite (search_no_plus (match_seconds D) text
                 (match_seconds_plus D) eq_refl H).
Qed.

Lemma decimal_not_space (c : codepoint) :
  isdecimal D c = true -> isspace c = false.
Proof. intros H. now apply (ok_apart D HD). Qed.

Lemma not_decimal (c : codepoint) :
  c = plus_sign \/ c = colon \/ c = double_prime -> isdecimal D c = false.
Proof.
  intros H. destruct (isdecimal D c) eqn:E; [|reflexivity].
  apply (ok_apart D HD) in E. tauto.
Qed.

(** The two greedy runs after the '+': whitespace, then digits up to a
    code point that is no digit. *)
Lemma runs_after_plus (ws m rest : str) (stop : codepoint) :
  forallb isspace ws = true ->
  m <> [] -> forallb (isdecimal D) m = true ->
  isdecimal D stop = false ->
  span (isdecimal D) (snd (span isspace (ws ++ m ++ stop :: rest)))
  = (m, stop :: rest).
Proof.
  intros Hws Hne Hm Hstop.
  rewrite (span_exact isspace ws (m ++ stop :: rest) Hws).
  - simpl snd. now apply span_exact.
  - destruct m as [|d m]; [congruence|]. simpl in *.
    apply andb_true_iff in Hm as [Hd _]. now apply decimal_not_space.
Qed.

(** X17. A gap written as '+', optional whitespace, minutes, ':' and seconds
    is returned as "+minutes:seconds", the whitespace dropped, when no
    '+' comes before it and no digit follows the seconds. *)
Theorem parse_time_gap_minutes (before ws m sec after : str) :
  ~ In plus_sign before ->
  forallb isspace ws = true ->
  m <> [] -> forallb (isdecimal D) m = true ->
  sec <> [] -> forallb (isdecimal D) sec = true ->
  match after with [] => True | c :: _ => isdecimal D c = false end ->
  parse_time_gap D
    (before ++ plus_sign :: ws ++ m ++ colon :: sec ++ after) false
  = plus_sign :: m ++ colon :: sec.
Proof.
  intros Hb Hws Hm Hmd Hs Hsd Ha. unfold parse_time_gap.
  rewrite (search_skip (match_minutes D) before _ (match_minutes_plus D) Hb).
  assert (E : match_minutes D
                (plus_sign :: ws ++ m ++ colon :: sec ++ after)
              = Some (m ++ colon :: sec)).
  { unfold match_minutes. rewrite N.eqb_refl.
    rewrite runs_after_plus by (auto using not_decimal).
    destruct m as [|d m]; [congruence|]. rewrite N.eqb_refl.
    rewrite (span_exact (isdecimal D) sec after Hsd Ha). simpl fst.
    destruct sec; [congruence | reflexivity]. }
  now rewrite (search_here _ _ _ E).
Qed.

Lemma py_int_digits (d : Decimal.uint) :
  (forall p,
      fold_left (fun n c => (10 * n + digit_value D c)%N)
        (lit (DecimalString.NilEmpty.string_of_uint d)) (Npos p)
      = Npos (Pos.of_uint_acc d p))
  /\ fold_left (fun n c => (10 * n + digit_value D c)%N)
       (lit (DecimalString.NilEmpty.string_of_uint d)) 0%N
     = Pos.of_uint d.
Proof.
  assert (V : forall c, is_ascii_digit c = true ->
                        digit_value D c = (c - 48)%N).
  { intros c Hc. now apply ascii_digit_decimal. }
  induction d as [|d [IH1 IH2]|d [IH1 IH2]|d [IH1 IH2]|d [IH1 IH2]
                  |d [IH1 IH2]|d [IH1 IH2]|d [IH1 IH2]|d [IH1 IH2]
                  |d [IH1 IH2]|d [IH1 IH2]];
    [split; reflexivity | ..];
    (split; [intros p|]);
    match goal with
    | |- fold_left ?F (lit (DecimalString.NilEmpty.string_of_uint (?Dk d))) ?acc = ?rhs =>
        let c := eval vm_compute in
                   (hd 0%N (lit (DecimalString.NilEmpty.string_of_uint (Dk Decimal.Nil)))) in
        change (fold_left F (lit (DecimalString.NilEmpty.string_of_uint d))
                  (10 * acc + digit_value D c)%N = rhs);
        rewrite (V c eq_refl)
    end;
    cbn [Pos.of_uint_acc Pos.of_uint];
    first [ exact IH2
          | rewrite <- IH1; f_equal; lia
          | rewrite <- IH1; reflexivity ].
Qed.

(** [int(str(n))] is [n]. *)
Lemma py_int_py_str (n : N) : py_int D (py_str (Z.of_N n)) = n.
Proof.
  unfold py_int, py_str. destruct n as [|p].
  - simpl. rewrite (proj2 (ascii_digit_decimal 48%N eq_refl)). reflexivity.
  - simpl Z.to_int. simpl DecimalString.NilZero.string_of_int.
    pose proof (DecimalPos.Unsigned.to_uint_nonnil p) as Hn.
    assert (E : DecimalString.NilZero.string_of_uint (Pos.to_uint p)
                = DecimalString.NilEmpty.string_of_uint (Pos.to_uint p)).
    { destruct (Pos.to_uint p); [congruence | reflexivity ..]. }
    rewrite E, (proj2 (py_int_digits (Pos.to_uint p))).
    apply DecimalPos.Unsigned.of_to.
Qed.

(** X18. A gap written as '+', optional whitespace, a number of seconds and
    the double prime, in a text with no other '+', is returned as "+0:"
    followed by the seconds on two digits at least: 5 gives "+0:05", and
    75 gives "+0:75", no minute being carried. *)
Theorem parse_time_gap_seconds (before ws after : str) (n : N) :
  ~ In plus_sign before -> ~ In plus_sign after ->
  forallb isspace ws = true ->
  parse_time_gap D
    (before ++ plus_sign :: ws ++ py_str (Z.of_N n) ++ double_prime :: after)
    false
  = lit "+0:" ++ format_02d n.
Proof.
  intros Hb Ha Hws. unfold parse_time_gap.
  destruct (py_str_of_N n) as [Hne Hd].
  pose proof (ascii_digits_decimal _ Hd) as Hdec.
  set (digits := py_str (Z.of_N n)) in *.
  assert (Hrest : ~ In plus_sign (ws ++ digits ++ double_prime :: after)).
  { intros H. apply in_app_or in H as [H|H].
    - rewrite forallb_forall in Hws. now apply Hws in H.
    - apply in_app_or in H as [H|[H|H]].
      + rewrite forallb_forall in Hd. now apply Hd in H.
      + discriminate H.
      + contradiction. }
  assert (Eruns : span (isdecimal D)
                    (snd (span isspace
                            (ws ++ digits ++ double_prime :: after)))
                  = (digits, double_prime :: after)).
  { apply runs_after_plus; auto using not_decimal. }
  assert (E1 : search (match_minutes D)
                 (before ++ plus_sign :: ws ++ digits
                  ++ double_prime :: after) = None).
  { rewrite (search_skip _ before _ (match_minutes_plus D) Hb).
    rewrite search_next.
    - apply search_no_plus; [apply match_minutes_plus | reflexivity
                             | assumption].
    - unfold match_minutes. rewrite N.eqb_refl, Eruns.
      destruct digits; [congruence | reflexivity]. }
  assert (E2 : search (match_seconds D)
                 (before ++ plus_sign :: ws ++ digits
                  ++ double_prime :: after) = Some digits).
  { rewrite (search_skip _ before _ (match_seconds_plus D) Hb).
    apply search_here. unfold match_seconds.
    rewrite N.eqb_refl, Eruns.
    destruct digits; [congruence | reflexivity]. }
  rewrite E1, E2. unfold digits. now rewrite py_int_py_str.
Qed.

End TimeGapFacts.

Lemma ascii_digits_ok : DigitsOK ascii_digits.
Proof.
  constructor; simpl.
  - intros c H. split; [|reflexivity].
    apply andb_true_iff. split; apply N.leb_le; lia.
  - intros c H. apply andb_true_iff in H as [H1 H2].
    apply N.leb_le in H1, H2.
    assert (Hs : isspace c = false).
    { unfold isspace. now n_cases. }
    unfold plus_sign, colon, double_prime. repeat split; try assumption; lia.
Qed.

Lemma parse_time_gap_shape_witness :
  exists m sec,
    parse_time_gap ascii_digits (lit "2 POGACAR Tadej +1:23") false
    = [plus_sign] ++ m ++ colon :: sec
    /\ m <> [] /\ sec <> [].
Proof.
  destruct (parse_time_gap_shape ascii_digits ascii_digits_ok
              (lit "2 POGACAR Tadej +1:23") false)
    as [m [sec [E [H1 [H2 _]]]]].
  exists m, sec. repeat split; assumption.
Defined.

Lemma parse_time_gap_no_plus_witness :
  parse_time_gap ascii_digits (lit "2 POGACAR Tadej ,,") false
  = lit "+0:00".
Proof.
  apply (parse_time_gap_no_plus ascii_digits (lit "2 POGACAR Tadej ,,")).
  vm_compute. intuition discriminate.
Defined.

Lemma parse_time_gap_minutes_witness :
  parse_time_gap ascii_digits
    (lit "2 X " ++ plus_sign :: lit " " ++ lit "1" ++ colon :: lit "23"
     ++ lit " bonus") false
  = plus_sign :: lit "1" ++ colon :: lit "23".
Proof.
  apply (parse_time_gap_minutes ascii_digits ascii_digits_ok
           (lit "2 X ") (lit " ") (lit "1") (lit "23") (lit " bonus"));
    try reflexivity; try discriminate.
  vm_compute. intuition discriminate.
Defined.

Lemma parse_time_gap_seconds_witness :
  parse_time_gap ascii_digits
    (lit "3 X " ++ plus_sign :: [] ++ py_str (Z.of_N 75)
     ++ double_prime :: []) false
  = lit "+0:" ++ format_02d 75.
Proof.
  apply (parse_time_gap_seconds ascii_digits ascii_digits_ok
           (lit "3 X ") [] [] 75%N);
    try reflexivity; vm_compute; intuition discriminate.
Defined.

(** ** Stage rows *)

Lemma startswith_app (a b : str) : startswith (a ++ b) a = true.
Proof.
  induction a as [|c a IH]; [destruct b; reflexivity|].
  simpl. now rewrite N.eqb_refl, IH.
Qed.

Lemma lit_append (a b : string) : lit (a ++ b)%string = lit a ++ lit b.
Proof.
  unfold lit. induction a as [|c a IH]; [reflexivity|].
  simpl. now rewrite IH.
Qed.

Lemma string_append_assoc (a b c : string) :
  ((a ++ b) ++ c = a ++ (b ++ c))%string.
Proof. induction a as [|x a IH]; simpl; [reflexivity | now rewrite IH]. Qed.

Lemma string_of_revapp (l : Decimal.uint) :
  forall acc,
    DecimalString.NilEmpty.string_of_uint (Decimal.revapp l acc)
    = (DecimalString.NilEmpty.string_of_uint (Decimal.revapp l Decimal.Nil)
       ++ DecimalString.NilEmpty.string_of_uint acc)%string.
Proof.
  induction l as [|l IH|l IH|l IH|l IH|l IH|l IH|l IH|l IH|l IH|l IH];
    intros acc; [reflexivity | ..];
    cbn [Decimal.revapp];
    rewrite IH;
    match goal with
    | |- _ = (DecimalString.NilEmpty.string_of_uint (Decimal.revapp l ?one) ++ _)%string =>
        rewrite (IH one)
    end;
    rewrite string_append_assoc; reflexivity.
Qed.

(** The little-endian digits of [10 * p + d]. *)
Lemma to_lu_tenfold_plus (p : positive) (d : N) :
  (d <= 9)%N ->
  exists u,
    DecimalPos.Unsigned.to_lu (10 * Npos p + d)
    = Decimal.revapp u (DecimalPos.Unsigned.to_lu (Npos p))
    /\ (forall l,
          Decimal.revapp (Decimal.revapp u l) Decimal.Nil
          = Decimal.revapp l u)
    /\ lit (DecimalString.NilEmpty.string_of_uint u) = [(48 + d)%N].
Proof.
  intros Hd.
  assert (S1 : forall n, DecimalPos.Unsigned.to_lu (n + 1)
                         = Decimal.Little.succ (DecimalPos.Unsigned.to_lu n)).
  { intros n. rewrite N.add_1_r. apply DecimalPos.Unsigned.to_lu_succ. }
  pose proof (DecimalPos.Unsigned.to_ldec_tenfold p) as T.
  assert (C : (d = 0 \/ d = 1 \/ d = 2 \/ d = 3 \/ d = 4 \/ d = 5
               \/ d = 6 \/ d = 7 \/ d = 8 \/ d = 9)%N) by lia.
  destruct C as [-> | [-> | [-> | [-> | [-> | [-> | [-> | [-> | [-> | ->]]]]]]]]].
  - exists (Decimal.D0 Decimal.Nil). rewrite N.add_0_r, T. now repeat split.
  - exists (Decimal.D1 Decimal.Nil). rewrite S1, T. now repeat split.
  - exists (Decimal.D2 Decimal.Nil).
    replace (10 * N.pos p + 2)%N with (10 * N.pos p + 1 + 1)%N by lia.
    rewrite !S1, T. now repeat split.
  - exists (Decimal.D3 Decimal.Nil).
    replace (10 * N.pos p + 3)%N with (10 * N.pos p + 1 + 1 + 1)%N by lia.
    rewrite !S1, T. now repeat split.
  - exists (Decimal.D4 Decimal.Nil).
    replace (10 * N.pos p + 4)%N
      with (10 * N.pos p + 1 + 1 + 1 + 1)%N by lia.
    rewrite !S1, T. now repeat split.
  - exists (Decimal.D5 Decimal.Nil).
    replace (10 * N.pos p + 5)%N
      with (10 * N.pos p + 1 + 1 + 1 + 1 + 1)%N by lia.
    rewrite !S1, T. now repeat split.
  - exists (Decimal.D6 Decimal.Nil).
    replace (10 * N.pos p + 6)%N
      with (10 * N.pos p + 1 + 1 + 1 + 1 + 1 + 1)%N by lia.
    rewrite !S1, T. now repeat split.
  - exists (Decimal.D7 Decimal.Nil).
    replace (10 * N.pos p + 7)%N
      with (10 * N.pos p + 1 + 1 + 1 + 1 + 1 + 1 + 1)%N by lia.
    rewrite !S1, T. now repeat split.
  - exists (Decimal.D8 Decimal.Nil).
    replace (10 * N.pos p + 8)%N
      with (10 * N.pos p + 1 + 1 + 1 + 1 + 1 + 1 + 1 + 1)%N by lia.
    rewrite !S1, T. now repeat split.
  - exists (Decimal.D9 Decimal.Nil).
    replace (10 * N.pos p + 9)%N
      with (10 * N.pos p + 1 + 1 + 1 + 1 + 1 + 1 + 1 + 1 + 1)%N by lia.
    rewrite !S1, T. now repeat split.
Qed.

Lemma nilzero_nonnil (u : Decimal.uint) :
  u <> Decimal.Nil ->
  DecimalString.NilZero.string_of_uint u = DecimalString.NilEmpty.string_of_uint u.
Proof. destruct u; [congruence | reflexivity ..]. Qed.

(** The decimal writing of [10 * s + d] is that of [s] followed by the
    digit [d]. *)
Lemma py_str_tenfold (s d : Z) :
  (1 <= s)%Z -> (0 <= d <= 9)%Z ->
  py_str (10 * s + d) = py_str s ++ [(48 + Z.to_N d)%N].
Proof.
  intros Hs Hd. destruct s as [|p|p]; try lia.
  destruct (10 * Z.pos p + d)%Z as [|q|q] eqn:Eq; try lia.
  assert (Hq : Npos q = (10 * Npos p + Z.to_N d)%N) by lia.
  destruct (to_lu_tenfold_plus p (Z.to_N d)) as [u [Hlu [Hrev Hdig]]];
    [lia|].
  rewrite <- Hq in Hlu. simpl DecimalPos.Unsigned.to_lu in Hlu.
  unfold py_str. simpl Z.to_int. simpl DecimalString.NilZero.string_of_int.
  rewrite !nilzero_nonnil by apply DecimalPos.Unsigned.to_uint_nonnil.
  unfold Pos.to_uint, Decimal.rev. rewrite Hlu, Hrev.
  now rewrite string_of_revapp, lit_append, Hdig.
Qed.

(** X19. The row test takes the rows of ten other stages for rows of the
    stage asked for: for a stage [s] from 1 on, a row text that starts
    with the label of stage [10 * s + d] (stage 10 to 19 when [s] is 1)
    passes the test for stage [s]. *)
Theorem stage_row_matches_tenfold (stage d : Z) (rest : str) :
  (1 <= stage)%Z -> (0 <= d <= 9)%Z ->
  is_stage_row stage (stage_label (10 * stage + d) ++ rest) = true.
Proof.
  intros Hs Hd. unfold is_stage_row, stage_label.
  rewrite py_str_tenfold by assumption.
  rewrite !app_assoc, <- (app_assoc (lit "Stage " ++ py_str stage)).
  rewrite startswith_app. apply orb_true_r.
Qed.

Lemma stage_row_matches_tenfold_witness :
  is_stage_row 1 (stage_label (10 * 1 + 0) ++ lit " HEALY Ben") = true.
Proof.
  apply (stage_row_matches_tenfold 1 0 (lit " HEALY Ben")); lia.
Defined.
